(** * kivy/input/postproc/calibration.py

    A shallow embedding of [InputPostprocCalibration]: the construction of
    the calibration table from the configuration section
    [postproc:calibration] ([__init__]) and the per-frame recalibration of a
    batch of motion events ([process]).

    Python floats are IEEE 754 binary64 numbers: they are modelled by the
    kernel's primitive floats, whose operations are the same correctly
    rounded ones.  Python objects that are mutated in place (the motion
    events) live in a store and are named by their location. *)

From Stdlib Require Import PrimFloat ZArith Ascii String List.
From stdpp Require Import gmap strings list fin_maps.

Set Warnings "-inexact-float".
Local Open Scope Z_scope.

(** ** Exceptions and the state-and-exception monad *)

(** The two ways a [ValueError] is raised by [__init__]. *)
Inductive value_error : Type :=
  | NotEnoughValues            (* tuple unpacking of a one-element list *)
  | NotAFloat (s : string).    (* float(s) on a string that is no number *)

Inductive exn : Type :=
  | ValueError (why : value_error)
  | KeyError (key : string).

Inductive result (A : Type) : Type :=
  | Ok (a : A)
  | Raise (e : exn).
Arguments Ok {A} a.
Arguments Raise {A} e.

(** A computation over a mutable world [S] that returns or raises.  An
    exception does not roll the world back. *)
Definition M (S A : Type) : Type := S → result A * S.

Definition ret {S A} (a : A) : M S A := λ s, (Ok a, s).
Definition raise {S A} (e : exn) : M S A := λ s, (Raise e, s).
Definition bind {S A B} (m : M S A) (k : A → M S B) : M S B :=
  λ s, match m s with
       | (Ok a, s') => k a s'
       | (Raise e, s') => (Raise e, s')
       end.
Definition get {S} : M S S := λ s, (Ok s, s).
Definition modify {S} (f : S → S) : M S unit := λ s, (Ok tt, f s).

Notation "x <- m ;; k" := (bind m (λ x, k))
  (at level 100, m at next level, right associativity).
Notation "m ;;; k" := (bind m (λ _, k))
  (at level 100, right associativity).

(** [for x in xs: acc = body(acc, x)] *)
Fixpoint foldM {S A B} (body : A → B → M S A) (xs : list B) (acc : A) : M S A :=
  match xs with
  | [] => ret acc
  | x :: rest => acc' <- body acc x ;; foldM body rest acc'
  end.

(** [for x in xs: body(x)] *)
Fixpoint forM_ {S B} (body : B → M S unit) (xs : list B) : M S unit :=
  match xs with
  | [] => ret tt
  | x :: rest => body x ;;; forM_ body rest
  end.

(** ** The string methods used by [__init__]

    Strings are taken to be ASCII, one character per [ascii]. *)

Module PyStr.

(** The ASCII characters [str.strip()] removes. *)
Definition is_space (c : ascii) : bool :=
  match c with
  | "009" | "010" | "011" | "012" | "013"
  | "028" | "029" | "030" | "031" | " " => true
  | _ => false
  end%char.

Definition is_empty (s : string) : bool :=
  match s with EmptyString => true | String _ _ => false end.

Fixpoint lstrip (s : string) : string :=
  match s with
  | EmptyString => EmptyString
  | String c s' => if is_space c then lstrip s' else s
  end.

Fixpoint rstrip (s : string) : string :=
  match s with
  | EmptyString => EmptyString
  | String c s' =>
      let t := rstrip s' in
      if is_space c && is_empty t then EmptyString else String c t
  end.

(** [s.strip()] *)
Definition strip (s : string) : string := rstrip (lstrip s).

(** [s.split(sep)] for a one-character separator: never the empty list. *)
Fixpoint split (sep : ascii) (s : string) : list string :=
  match s with
  | EmptyString => [EmptyString]
  | String c s' =>
      if Ascii.eqb c sep then EmptyString :: split sep s'
      else match split sep s' with
           | w :: ws => String c w :: ws
           | [] => [String c EmptyString]
           end
  end.

(** [s.split(sep, 1)]: one element when [sep] does not occur in [s], else
    the text before the first [sep] and the text after it. *)
Fixpoint split1 (sep : ascii) (s : string) : list string :=
  match s with
  | EmptyString => [EmptyString]
  | String c s' =>
      if Ascii.eqb c sep then [EmptyString; s']
      else match split1 sep s' with
           | w :: ws => String c w :: ws
           | [] => [String c EmptyString]
           end
  end.

(** [sep in s] *)
Fixpoint contains (sep : ascii) (s : string) : bool :=
  match s with
  | EmptyString => false
  | String c s' => Ascii.eqb c sep || contains sep s'
  end.

End PyStr.

(** ** The calibration table and the stage *)

(** One entry of [self.devices]: a dict from parameter name to float. *)
Abbreviation params := (gmap string float).

(** [self.devices] *)
Abbreviation table := (gmap string (gmap string float)).

(** [self.provider_map]: a dict in its enumeration order, from the name of
    an input provider to the names of the event classes it declares.  It
    is built by [_get_provider_map] from the provider registry, which is
    outside this file; the stage takes it as given. *)
Abbreviation providers := (list (string * list string)).

Record stage : Type := Stage {
  devices : table;
  frame : Z;
  provider_map : providers
}.

(** [default_params].  The source writes the ints 0 and 1; they only ever
    meet the floats [sx] and [sy] in arithmetic, where Python converts
    them to 0.0 and 1.0. *)
Definition default_params : params :=
  <["xoffset" := 0%float]> (<["yoffset" := 0%float]>
    (<["xratio" := 1%float]> (<["yratio" := 1%float]> ∅))).

Definition known_keys : list string := ["xoffset"; "yoffset"; "xratio"; "yratio"].

(** What [Logger.error] has been given so far. *)
Abbreviation log := (list string).

Definition Logger_error (msg : string) : M log unit :=
  modify (λ l, l ++ [msg]).

(** [key, value = parts] *)
Definition unpack2 {S} (parts : list string) : M S (string * string) :=
  match parts with
  | [key; value] => ret (key, value)
  | _ => raise (ValueError NotEnoughValues)
  end.

Section Init.

(** The builtin [float(s)] on a string: [None] when it raises
    [ValueError]. *)
Variable py_float : string → option float.

Definition float_of (value : string) : M log float :=
  match py_float value with
  | Some v => ret v
  | None => raise (ValueError (NotAFloat value))
  end.

(** The body of the inner loop of [__init__] (lines 71-78). *)
Definition parse_param (params0 : params) (param : string) : M log params :=
  let param := PyStr.strip param in
  if PyStr.is_empty param then ret params0
  else
    kv <- unpack2 (PyStr.split1 "=" param) ;;
    let '(key, value) := kv in
    (if bool_decide (key ∈ known_keys) then ret tt
     else Logger_error ("Calibration: invalid key provided: " +:+ key)) ;;;
    v <- float_of value ;;
    ret (<[key := v]> params0).

(** The body of the outer loop (lines 69-79). *)
Definition parse_entry (devs : table) (item : string * string) : M log table :=
  let '(device_key, params_str) := item in
  ps <- foldM parse_param (PyStr.split "," params_str) default_params ;;
  ret (<[device_key := ps]> devs).

(** [InputPostprocCalibration.__init__].  [config] is what
    [Config.items('postproc:calibration')] yields, or [None] when
    [Config.has_section] is false; [pm] is the provider map. *)
Definition __init__ (config : option (list (string * string))) (pm : providers)
  : M log stage :=
  match config with
  | None => ret (Stage ∅ 0 pm)
  | Some items =>
      devs <- foldM parse_entry items ∅ ;;
      ret (Stage devs 0 pm)
  end.

(** The tokens on which the loop body does not raise: empty after
    [strip], or [name=value] with a value [float] accepts. *)
Definition token_ok (t : string) : bool :=
  let p := PyStr.strip t in
  PyStr.is_empty p ||
  match PyStr.split1 "=" p with
  | [_; value] => match py_float value with Some _ => true | None => false end
  | _ => false
  end.

Definition entry_ok (item : string * string) : bool :=
  forallb token_ok (PyStr.split "," item.2).

End Init.

(** ** Motion events and the store *)

(** The attributes of a [MotionEvent] that [process] reads or writes.
    [device] is the name of the device the event comes from; [mro] holds
    the name of the event's class and of all its base classes, which is
    what [isinstance] looks at; [sx] and [sy] are the normalized position;
    [ud] is the user-data dict. *)
Record event : Type := Event {
  device : option string;
  mro : list string;
  sx : float;
  sy : float;
  ud : gmap string Z
}.

Definition set_sx (v : float) (e : event) : event :=
  Event (device e) (mro e) v (sy e) (ud e).
Definition set_sy (v : float) (e : event) : event :=
  Event (device e) (mro e) (sx e) v (ud e).
Definition set_ud (k : string) (v : Z) (e : event) : event :=
  Event (device e) (mro e) (sx e) (sy e) (<[k := v]> (ud e)).

(** Event objects are shared: a batch names them by location, and the same
    location may occur in several pairs of one batch. *)
Abbreviation loc := nat.
Abbreviation store := (gmap nat event).
Abbreviation batch := (list (string * nat)).

(** [isinstance(event, ec)] *)
Definition isinstance (e : event) (ec : string) : bool :=
  bool_decide (ec ∈ mro e).

(** [key in d] *)
Definition has_key {A} (d : gmap string A) (key : string) : bool :=
  match d !! key with Some _ => true | None => false end.

(** [d[key]] *)
Definition getitem {S A} (d : gmap string A) (key : string) : M S A :=
  match d !! key with
  | Some v => ret v
  | None => raise (KeyError key)
  end.

(** The inner loop of [_get_provider_key] (lines 97-99). *)
Fixpoint scan_classes (devs : table) (e : event) (key : string)
    (ev_class : list string) : option string :=
  match ev_class with
  | [] => None
  | ec :: rest =>
      if isinstance e ec && has_key devs key then Some key
      else scan_classes devs e key rest
  end.

(** The outer loop of [_get_provider_key] (lines 95-99); falling off the
    end returns [None]. *)
Fixpoint scan_providers (devs : table) (e : event) (pm : providers)
    : option string :=
  match pm with
  | [] => None
  | (input_type, ev_class) :: rest =>
      let key := "(" +:+ input_type +:+ ")" in
      match scan_classes devs e key ev_class with
      | Some k => Some k
      | None => scan_providers devs e rest
      end
  end.

Definition _get_provider_key (self : stage) (e : event) : option string :=
  scan_providers (devices self) e (provider_map self).

(** Lines 114-117: the value of [dev]. *)
Definition resolve (self : stage) (e : event) : option string :=
  match device e with
  | Some d => if has_key (devices self) d then Some d
              else _get_provider_key self e
  | None => _get_provider_key self e
  end.

Definition marker : string := "calibration:frame".

(** Lines 126-129 of [process]: the transform and the frame mark. *)
Definition transform (self : stage) (fr : Z) (dev : string) : M event unit :=
  ps <- getitem (devices self) dev ;;
  xratio <- getitem ps "xratio" ;;
  xoffset <- getitem ps "xoffset" ;;
  modify (λ e, set_sx (sx e * xratio + xoffset)%float e) ;;;
  yratio <- getitem ps "yratio" ;;
  yoffset <- getitem ps "yoffset" ;;
  modify (λ e, set_sy (sy e * yratio + yoffset)%float e) ;;;
  modify (set_ud marker fr).

(** Lines 114-129 of [process], on the event object of one pair. *)
Definition calibrate_event (self : stage) (fr : Z) : M event unit :=
  e <- get ;;
  match resolve self e with
  | None => ret tt
  | Some dev =>
      if PyStr.is_empty dev then ret tt      (* [if not dev: continue] *)
      else
        go <- match ud e !! marker with
              | None => modify (set_ud marker fr) ;;; ret true
              | Some f => ret (negb (f =? fr))
              end ;;
        if negb go then ret tt else transform self fr dev
  end.

(** Run a computation on the object at [r], in place.  A batch holds live
    objects only; a location outside the store is left alone. *)
Definition on_object {A} (r : loc) (dflt : A) (m : M event A) : M store A :=
  λ σ, match σ !! r with
       | None => (Ok dflt, σ)
       | Some e => let '(res, e') := m e in (res, <[r := e']> σ)
       end.

(** The body of the loop of [process] (lines 108-129). *)
Definition process_event (self : stage) (fr : Z) (item : string * loc)
    : M store unit :=
  let '(etype, r) := item in
  if String.eqb etype "end" then ret tt
  else on_object r tt (calibrate_event self fr).

Definition set_frame (fr : Z) (self : stage) : stage :=
  Stage (devices self) fr (provider_map self).

(** [InputPostprocCalibration.process]: the result, and the stage and the
    store as the call leaves them. *)
Definition process (self : stage) (events : batch) (σ : store)
    : result batch * stage * store :=
  if decide (devices self = ∅) then (Ok events, self, σ)
  else
    let self' := set_frame (frame self + 1) self in
    let fr := frame self' in
    match forM_ (process_event self' fr) events σ with
    | (Ok _, σ') => (Ok events, self', σ')
    | (Raise e, σ') => (Raise e, self', σ')
    end.

(** ** Specification-level definitions *)

(** The event after one application of the transform in frame [fr]. *)
Definition calibrated (xr xo yr yo : float) (fr : Z) (e : event) : event :=
  Event (device e) (mro e)
        (sx e * xr + xo)%float (sy e * yr + yo)%float
        (<[marker := fr]> (ud e)).

(** The entry [ps] holds the four fields read by the transform. *)
Definition entry_has (ps : params) (xr xo yr yo : float) : Prop :=
  ps !! "xratio" = Some xr ∧ ps !! "xoffset" = Some xo ∧
  ps !! "yratio" = Some yr ∧ ps !! "yoffset" = Some yo.

(** The event [e] gets past line 119 with a key whose entry holds
    [xr], [xo], [yr], [yo]. *)
Definition entry_of (self : stage) (e : event) (xr xo yr yo : float) : Prop :=
  ∃ dev ps, resolve self e = Some dev ∧ PyStr.is_empty dev = false ∧
            devices self !! dev = Some ps ∧ entry_has ps xr xo yr yo.

(** Every entry of the table holds the four fields: what [__init__]
    establishes, since each entry starts as a copy of the defaults. *)
Definition wf_table (devs : table) : Prop :=
  ∀ k ps, devs !! k = Some ps → ∀ f, f ∈ known_keys → is_Some (ps !! f).

(** What one pass of the loop body makes of the event object when no
    lookup fails. *)
Definition step (self : stage) (fr : Z) (e : event) : event :=
  match resolve self e with
  | None => e
  | Some dev =>
      if PyStr.is_empty dev then e
      else if bool_decide (ud e !! marker = Some fr) then e
      else match devices self !! dev with
           | None => e
           | Some ps =>
               match ps !! "xratio", ps !! "xoffset", ps !! "yratio", ps !! "yoffset" with
               | Some xr, Some xo, Some yr, Some yo => calibrated xr xo yr yo fr e
               | _, _, _, _ => e
               end
           end
  end.

(** The object at [r] occurs in the batch in a pair that is no "end". *)
Definition touched (r : loc) (events : batch) : bool :=
  existsb (λ item, negb (String.eqb item.1 "end") && Nat.eqb item.2 r) events.

(** What [process] leaves untouched in an event, whatever happens. *)
Definition same_object (e e' : event) : Prop :=
  device e' = device e ∧ mro e' = mro e ∧
  ∀ k, k ≠ marker → ud e' !! k = ud e !! k.

(** The same, for every object of the store: none appears, none goes. *)
Definition same_objects (σ σ' : store) : Prop :=
  ∀ r : loc, match σ !! r with
             | None => σ' !! r = None
             | Some e => ∃ e', σ' !! r = Some e' ∧ same_object e e'
             end.

(** An entry cut down to the four fields of the transform, and the stage
    whose entries are cut down so. *)
Definition restrict (ps : params) : params :=
  filter (λ kv, kv.1 ∈ known_keys) ps.

Definition canonical (self : stage) : stage :=
  Stage (restrict <$> devices self) (frame self) (provider_map self).

(** The parenthesized key of a provider type. *)
Definition provider_key (input_type : string) : string :=
  "(" +:+ input_type +:+ ")".

(** The provider entry matches the event: one of its event classes is a
    class of the event, and its parenthesized key is in the table. *)
Definition provider_matches (devs : table) (e : event)
    (entry : string * list string) : bool :=
  existsb (isinstance e) entry.2 && has_key devs (provider_key entry.1).

(** The key the specification selects: the first matching provider. *)
Definition first_match (devs : table) (e : event) (pm : providers) : option string :=
  (λ entry, provider_key entry.1) <$> List.find (provider_matches devs e) pm.

(** The log after the check of the field name (lines 75-77). *)
Definition invalid_key (key : string) (l : log) : log :=
  if bool_decide (key ∈ known_keys) then l
  else l ++ ["Calibration: invalid key provided: " +:+ key].

(** ** A small installation, to try the model on *)

(** [float] on the plain decimal literals used below; any other string is
    refused.  Each value is the binary64 number nearest to the literal,
    which is what [float] returns for it; the strings refused here that
    are used below ("notanumber", "bar") are refused by [float] too. *)
Definition float_literal (s : string) : option float :=
  if String.eqb s "0.5" then Some 0.5%float
  else if String.eqb s "0.1" then Some 0.1%float
  else if String.eqb s "2.0" then Some 2%float
  else if String.eqb s "0.0" then Some 0%float
  else if String.eqb s "0.3333" then Some 0.3333%float
  else None.

Definition demo_providers : providers :=
  [("mouse", ["MouseMotionEvent"]); ("mtdev", ["MTDMotionEvent"])].

Definition demo_config : list (string * string) :=
  [("left", "xratio=0.5,xoffset=0.1,yratio=2.0,yoffset=0.0");
   ("(mtdev)", "xratio=0.3333, xoffset=0.3333,")].

Definition demo_left : params :=
  <["xratio" := 0.5%float]> (<["xoffset" := 0.1%float]>
    (<["yratio" := 2%float]> (<["yoffset" := 0%float]> ∅))).

Definition demo_mtdev : params :=
  <["xratio" := 0.3333%float]> (<["xoffset" := 0.3333%float]>
    (<["yratio" := 1%float]> (<["yoffset" := 0%float]> ∅))).

Definition demo_stage : stage :=
  Stage (<["left" := demo_left]> (<["(mtdev)" := demo_mtdev]> ∅)) 0 demo_providers.

(** A touch on the device "left", at [(0.4, 0.3)]. *)
Definition demo_event : event :=
  Event (Some "left") ["MTDMotionEvent"; "MotionEvent"] 0.4%float 0.3%float ∅.

(** A touch of an mtdev device that has no entry of its own, and a mouse
    event, for which the table has nothing. *)
Definition demo_right : event :=
  Event (Some "right") ["MTDMotionEvent"; "MotionEvent"] 0.5%float 0.5%float ∅.

Definition demo_mouse : event :=
  Event (Some "mouse") ["MouseMotionEvent"; "MotionEvent"] 0.25%float 0.75%float ∅.

Definition demo_store : store :=
  <[0%nat := demo_event]> (<[1%nat := demo_right]> (<[2%nat := demo_mouse]> ∅)).

(** The provider of [demo_event] sends the same object as an update and
    as an end. *)
Definition demo_batch : batch :=
  [("update", 0%nat); ("end", 0%nat); ("update", 0%nat); ("end", 2%nat)].

(** ** The provider registry and [_get_provider_map]

    [_get_provider_map] reads two things that live outside this file:
    [MotionEventFactory.list()], the names of the registered input
    providers, and the package [kivy.input.providers], whose attribute of
    that name is the provider's module.  Both are taken as given.  A class
    is its name and the names of its base classes, as for [mro]. *)

Record pyclass : Type := PyClass {
  cname : string;
  cbases : list string
}.

(** What [getattr(p, m)] may find in a module: a class, or something that
    is no class (a function, a constant). *)
Inductive pyobj : Type :=
  | ClassObj (c : pyclass)
  | OtherObj.

Record pymodule : Type := PyModule {
  __all__ : list string;
  members : gmap string pyobj
}.

(** The two exceptions of [_get_provider_map]: [getattr] on a missing
    name, and [issubclass] on an object that is no class. *)
Inductive registry_error : Type :=
  | AttributeError (name : string)
  | TypeError.

(** [issubclass(attr, base)] for a class [attr]. *)
Definition issubclass (attr : pyclass) (base : string) : bool :=
  bool_decide (base ∈ cname attr :: cbases attr).

(** The inner loop of [_get_provider_map] (lines 86-89). *)
Fixpoint collect_events (p : pymodule) (names : list string) (events : list string)
    : list string + registry_error :=
  match names with
  | [] => inl events
  | m :: rest =>
      match members p !! m with
      | None => inr (AttributeError m)
      | Some OtherObj => inr TypeError
      | Some (ClassObj attr) =>
          collect_events p rest
            (if issubclass attr "MotionEvent" then events ++ [cname attr] else events)
      end
  end.

(** [d[k] = v] on a dict kept in its enumeration order: a key that is
    there keeps its place, a new one goes to the end. *)
Fixpoint dict_set {V} (d : list (string * V)) (k : string) (v : V) : list (string * V) :=
  match d with
  | [] => [(k, v)]
  | (k', v') :: rest =>
      if String.eqb k' k then (k, v) :: rest else (k', v') :: dict_set rest k v
  end.

(** The outer loop of [_get_provider_map] (lines 83-91). *)
Fixpoint fill_provider_map (ns : gmap string pymodule) (names : list string)
    (provider_map : providers) : providers + registry_error :=
  match names with
  | [] => inl provider_map
  | input_provider :: rest =>
      match ns !! input_provider with
      | None => inr (AttributeError input_provider)
      | Some p =>
          match collect_events p (__all__ p) [] with
          | inr err => inr err
          | inl [] => fill_provider_map ns rest provider_map
          | inl events =>
              fill_provider_map ns rest (dict_set provider_map input_provider events)
          end
      end
  end.

Definition _get_provider_map (factory_list : list string) (ns : gmap string pymodule)
    : providers + registry_error :=
  fill_provider_map ns factory_list [].

(** The names of the motion-event classes a module exports, in the order
    of its [__all__]. *)
Definition motion_events (p : pymodule) : list string :=
  omap (λ m, match members p !! m with
             | Some (ClassObj attr) =>
                 if issubclass attr "MotionEvent" then Some (cname attr) else None
             | _ => None
             end) (__all__ p).

(** Every name a module exports is a class of the module. *)
Definition exports_classes (p : pymodule) : Prop :=
  Forall (λ m, ∃ attr, members p !! m = Some (ClassObj attr)) (__all__ p).

(** The entry of the provider map for the provider [k], if it gets one. *)
Definition provider_entry (ns : gmap string pymodule) (k : string)
    : option (string * list string) :=
  match ns !! k with
  | Some p => match motion_events p with
              | [] => None
              | events => Some (k, events)
              end
  | None => None
  end.

(** ** The caller: one call of [process] per frame *)

Fixpoint run_frames (self : stage) (batches : list batch) (σ : store)
    : result unit * stage * store :=
  match batches with
  | [] => (Ok tt, self, σ)
  | events :: rest =>
      match process self events σ with
      | (Ok _, self', σ') => run_frames self' rest σ'
      | (Raise e, self', σ') => (Raise e, self', σ')
      end
  end.

(** ** Tokens as fields *)

(** The token is not empty after [strip]. *)
Definition nonblank (t : string) : bool := negb (PyStr.is_empty (PyStr.strip t)).

(** The name and the value a token gives, when the loop body returns on
    it and stores something. *)
Definition field_of (py_float : string → option float) (t : string)
    : option (string * float) :=
  if PyStr.is_empty (PyStr.strip t) then None
  else match PyStr.split1 "=" (PyStr.strip t) with
       | [key; value] => (λ v, (key, v)) <$> py_float value
       | _ => None
       end.

(** The entry a parameter string gives, or the exception. *)
Definition entry_params (py_float : string → option float) (params_str : string)
    : result params :=
  (foldM (parse_param py_float) (PyStr.split "," params_str) default_params []).1.

(** A registry with two providers; the mouse module also exports a
    class that is no motion event. *)
Definition demo_registry : gmap string pymodule :=
  <["mouse" := PyModule ["MouseMotionEventProvider"; "MouseMotionEvent"]
                 (<["MouseMotionEventProvider" :=
                      ClassObj (PyClass "MouseMotionEventProvider" ["MotionEventProvider"])]>
                  (<["MouseMotionEvent" :=
                      ClassObj (PyClass "MouseMotionEvent" ["MotionEvent"])]> ∅))]>
  (<["mtdev" := PyModule ["MTDMotionEvent"]
                 (<["MTDMotionEvent" :=
                      ClassObj (PyClass "MTDMotionEvent" ["MotionEvent"])]> ∅)]>
  (<["tuio" := PyModule [] ∅]> ∅)).

(** ** The whole constructor

    [InputPostprocCalibration()]: line 64 builds the provider map first,
    and an exception of [_get_provider_map] leaves the constructor before
    the configuration is looked at; then lines 65-79 run, which is
    [__init__] on that provider map. *)

Inductive init_error : Type :=
  | RegistryError (err : registry_error)   (* raised by line 64 *)
  | ConfigError (e : exn).                 (* raised by lines 68-79 *)

Definition InputPostprocCalibration (py_float : string → option float)
    (factory_list : list string) (ns : gmap string pymodule)
    (config : option (list (string * string))) (l : log)
    : (stage + init_error) * log :=
  match _get_provider_map factory_list ns with
  | inr err => (inr (RegistryError err), l)
  | inl pm =>
      match __init__ py_float config pm l with
      | (Ok self, l') => (inl self, l')
      | (Raise e, l') => (inr (ConfigError e), l')
      end
  end.

(** A table with an entry under the empty key, and a touch whose device
    name is the empty string. *)
Definition demo_empty_stage : stage :=
  Stage (<["" := demo_left]> ∅) 0 demo_providers.

Definition demo_empty_event : event :=
  Event (Some "") ["MTDMotionEvent"; "MotionEvent"] 0.4%float 0.3%float ∅.

Ltac run := unfold bind, get, modify, getitem, ret, raise; simpl.

(** ** The monad *)

Lemma forM__cons {S B} (body : B → M S unit) x xs s :
  forM_ body (x :: xs) s =
  match body x s with
  | (Ok _, s') => forM_ body xs s'
  | (Raise e, s') => (Raise e, s')
  end.
Proof. done. Qed.

(** ** Resolution *)

Lemma has_key_true {A} (d : gmap string A) k : has_key d k = true ↔ is_Some (d !! k).
Proof. unfold has_key. destruct (d !! k); split; intros H; try done; by destruct H. Qed.

Lemma scan_classes_Some devs e key cls k :
  scan_classes devs e key cls = Some k → k = key ∧ has_key devs key = true.
Proof.
  induction cls as [|ec cls IH]; simpl; [done|].
  destruct (isinstance e ec && has_key devs key) eqn:E; [|done].
  intros [= <-]. by apply andb_true_iff in E as [_ ?].
Qed.

Lemma scan_providers_Some devs e pm k :
  scan_providers devs e pm = Some k → is_Some (devs !! k).
Proof.
  induction pm as [|[input_type cls] pm IH]; simpl; [done|].
  destruct (scan_classes _ _ _ cls) as [k'|] eqn:E; [|done].
  intros [= <-]. apply scan_classes_Some in E as [-> E]. by apply has_key_true.
Qed.

Lemma resolve_in_table self e dev :
  resolve self e = Some dev → is_Some (devices self !! dev).
Proof.
  unfold resolve, _get_provider_key.
  destruct (device e) as [d|]; [destruct (has_key _ d) eqn:E|].
  - intros [= <-]. by apply has_key_true.
  - apply scan_providers_Some.
  - apply scan_providers_Some.
Qed.

(** Resolution reads the device and the class of the event only. *)
Lemma scan_classes_ext devs e e' key cls :
  mro e' = mro e → scan_classes devs e' key cls = scan_classes devs e key cls.
Proof.
  intros Hm. induction cls as [|ec cls IHc]; simpl; [done|].
  unfold isinstance. by rewrite Hm, IHc.
Qed.

Lemma scan_providers_ext devs e e' pm :
  mro e' = mro e → scan_providers devs e' pm = scan_providers devs e pm.
Proof.
  intros Hm. induction pm as [|[input_type cls] pm IH]; simpl; [done|].
  by rewrite IH, (scan_classes_ext _ e e').
Qed.

Lemma resolve_ext self e e' :
  device e' = device e → mro e' = mro e → resolve self e' = resolve self e.
Proof.
  intros Hd Hm. unfold resolve, _get_provider_key.
  by rewrite Hd, (scan_providers_ext _ e e').
Qed.

Lemma resolve_calibrated self xr xo yr yo fr e :
  resolve self (calibrated xr xo yr yo fr e) = resolve self e.
Proof. by apply resolve_ext. Qed.

(** ** One pass of the loop body on the event object *)

Lemma calibrate_event_unresolved self fr e :
  resolve self e = None → calibrate_event self fr e = (Ok tt, e).
Proof. intros H. unfold calibrate_event. run. by rewrite H. Qed.

Lemma calibrate_event_empty_key self fr e dev :
  resolve self e = Some dev → PyStr.is_empty dev = true →
  calibrate_event self fr e = (Ok tt, e).
Proof. intros H He. unfold calibrate_event. run. by rewrite H, He. Qed.

Lemma calibrate_event_marked self fr e :
  ud e !! marker = Some fr → calibrate_event self fr e = (Ok tt, e).
Proof.
  intros H. unfold calibrate_event. run.
  destruct (resolve self e) as [dev|]; [|done].
  destruct (PyStr.is_empty dev); [done|].
  by rewrite H, Z.eqb_refl.
Qed.

Lemma calibrate_event_applies self fr e xr xo yr yo :
  entry_of self e xr xo yr yo → ud e !! marker ≠ Some fr →
  calibrate_event self fr e = (Ok tt, calibrated xr xo yr yo fr e).
Proof.
  intros (dev & ps & Hr & Hne & Hd & Hxr & Hxo & Hyr & Hyo) Hm.
  unfold calibrate_event. run. rewrite Hr, Hne.
  destruct (ud e !! marker) as [f|] eqn:Hf; simpl.
  - destruct (Z.eqb_spec f fr) as [->|_]; [done|]. simpl.
    unfold transform. run. by rewrite Hd, Hxr, Hxo, Hyr, Hyo.
  - unfold transform. run.
    rewrite Hd, Hxr, Hxo, Hyr, Hyo. unfold calibrated, set_ud, set_sy, set_sx; simpl.
    by rewrite insert_insert_eq.
Qed.

Lemma step_unmarked_or_marked self fr e :
  step self fr e = e ∨
  ∃ xr xo yr yo, entry_of self e xr xo yr yo ∧ ud e !! marker ≠ Some fr ∧
                 step self fr e = calibrated xr xo yr yo fr e.
Proof.
  unfold step. destruct (resolve self e) as [dev|] eqn:Hr; [|by left].
  destruct (PyStr.is_empty dev) eqn:He; [by left|].
  case_bool_decide as Hm; [by left|].
  destruct (devices self !! dev) as [ps|] eqn:Hd; [|by left].
  destruct (ps !! "xratio") as [xr|] eqn:Hxr; [|by left].
  destruct (ps !! "xoffset") as [xo|] eqn:Hxo; [|by left].
  destruct (ps !! "yratio") as [yr|] eqn:Hyr; [|by left].
  destruct (ps !! "yoffset") as [yo|] eqn:Hyo; [|by left].
  right. exists xr, xo, yr, yo. split; [|done]. by exists dev, ps.
Qed.

Lemma step_applies self fr e xr xo yr yo :
  entry_of self e xr xo yr yo → ud e !! marker ≠ Some fr →
  step self fr e = calibrated xr xo yr yo fr e.
Proof.
  intros (dev & ps & Hr & Hne & Hd & Hxr & Hxo & Hyr & Hyo) Hm.
  unfold step. rewrite Hr, Hne, Hd, Hxr, Hxo, Hyr, Hyo.
  by rewrite bool_decide_eq_false_2.
Qed.

(** With a well-formed table no lookup fails, and the pass is [step]. *)
Lemma calibrate_event_wf self fr e :
  wf_table (devices self) → calibrate_event self fr e = (Ok tt, step self fr e).
Proof.
  intros Hwf.
  destruct (resolve self e) as [dev|] eqn:Hr.
  2:{ rewrite calibrate_event_unresolved by done. unfold step. by rewrite Hr. }
  destruct (PyStr.is_empty dev) eqn:He.
  { rewrite (calibrate_event_empty_key _ _ _ dev) by done. unfold step. by rewrite Hr, He. }
  destruct (decide (ud e !! marker = Some fr)) as [Hm|Hm].
  { rewrite calibrate_event_marked by done. unfold step.
    by rewrite Hr, He, bool_decide_eq_true_2. }
  destruct (resolve_in_table _ _ _ Hr) as [ps Hd].
  destruct (Hwf _ _ Hd "xratio") as [xr Hxr]; [set_solver|].
  destruct (Hwf _ _ Hd "xoffset") as [xo Hxo]; [set_solver|].
  destruct (Hwf _ _ Hd "yratio") as [yr Hyr]; [set_solver|].
  destruct (Hwf _ _ Hd "yoffset") as [yo Hyo]; [set_solver|].
  assert (entry_of self e xr xo yr yo) as Hent by (by exists dev, ps).
  by rewrite (calibrate_event_applies _ _ _ _ _ _ _ Hent Hm), (step_applies _ _ _ _ _ _ _ Hent Hm).
Qed.

Lemma step_idem self fr e : step self fr (step self fr e) = step self fr e.
Proof.
  destruct (step_unmarked_or_marked self fr e) as [H|(xr & xo & yr & yo & _ & _ & ->)];
    [by rewrite !H|].
  unfold step at 1. rewrite resolve_calibrated.
  destruct (resolve self e) as [dev|]; [|done].
  destruct (PyStr.is_empty dev); [done|].
  rewrite bool_decide_eq_true_2; [done|]. simpl. apply lookup_insert_eq.
Qed.

Lemma same_object_refl e : same_object e e.
Proof. by repeat split. Qed.

Lemma same_object_trans e1 e2 e3 :
  same_object e1 e2 → same_object e2 e3 → same_object e1 e3.
Proof.
  intros (Hd & Hm & Hu) (Hd' & Hm' & Hu'). repeat split; [congruence..|].
  intros k Hk. by rewrite Hu', Hu.
Qed.

(** Whatever the table holds and however the pass ends, it leaves the
    device, the class and every other key of [ud] alone. *)
Lemma transform_same_object self fr dev e res e' :
  transform self fr dev e = (res, e') → same_object e e'.
Proof.
  unfold transform, bind, getitem, modify, ret, raise.
  destruct (devices self !! dev) as [ps|]; [|intros [= _ <-]; apply same_object_refl].
  destruct (ps !! "xratio") as [xr|]; [|intros [= _ <-]; apply same_object_refl].
  destruct (ps !! "xoffset") as [xo|]; [|intros [= _ <-]; apply same_object_refl].
  destruct (ps !! "yratio") as [yr|]; [|by intros [= _ <-]].
  destruct (ps !! "yoffset") as [yo|]; [|by intros [= _ <-]].
  intros [= _ <-]. repeat split; simpl; try done.
  intros k Hk. by rewrite lookup_insert_ne.
Qed.

Lemma calibrate_event_same_object self fr e res e' :
  calibrate_event self fr e = (res, e') → same_object e e'.
Proof.
  unfold calibrate_event. run.
  destruct (resolve self e) as [dev|]; [|intros [= _ <-]; apply same_object_refl].
  destruct (PyStr.is_empty dev); [intros [= _ <-]; apply same_object_refl|].
  destruct (ud e !! marker) as [f|]; simpl.
  - destruct (f =? fr); simpl; [intros [= _ <-]; apply same_object_refl|].
    apply transform_same_object.
  - intros H%transform_same_object. eapply same_object_trans; [|exact H].
    repeat split; simpl; try done. intros k Hk. by rewrite lookup_insert_ne.
Qed.

(** ** One pass of the loop body on the store *)

Lemma same_objects_refl σ : same_objects σ σ.
Proof.
  intros r. destruct (σ !! r) as [e|] eqn:E; [|done].
  exists e. split; [done | apply same_object_refl].
Qed.

Lemma same_objects_trans σ1 σ2 σ3 :
  same_objects σ1 σ2 → same_objects σ2 σ3 → same_objects σ1 σ3.
Proof.
  intros H12 H23 r. specialize (H12 r). specialize (H23 r).
  destruct (σ1 !! r) as [e1|].
  - destruct H12 as (e2 & E2 & S12). rewrite E2 in H23.
    destruct H23 as (e3 & E3 & S23). exists e3. split; [done|].
    by eapply same_object_trans.
  - by rewrite H12 in H23.
Qed.

Lemma same_objects_dom σ σ' : same_objects σ σ' → dom σ' = dom σ.
Proof.
  intros H. apply set_eq. intros r. rewrite !elem_of_dom. specialize (H r).
  destruct (σ !! r) as [e|].
  - destruct H as (e' & -> & _). split; eauto.
  - rewrite H. split; by intros [? ?].
Qed.

Lemma process_event_end self fr r σ :
  process_event self fr ("end", r) σ = (Ok tt, σ).
Proof. done. Qed.

Lemma process_event_other self fr ty r' σ r :
  r ≠ r' → (process_event self fr (ty, r') σ).2 !! r = σ !! r.
Proof.
  intros Hne. unfold process_event, on_object.
  destruct (String.eqb ty "end"); [done|].
  destruct (σ !! r') as [e|]; [|done].
  destruct (calibrate_event self fr e) as [res e']. simpl.
  by rewrite lookup_insert_ne.
Qed.

Lemma process_event_unresolved self fr ty r σ e :
  σ !! r = Some e → resolve self e = None →
  process_event self fr (ty, r) σ = (Ok tt, σ).
Proof.
  intros Hr Hres. unfold process_event, on_object.
  destruct (String.eqb ty "end"); [done|].
  rewrite Hr, calibrate_event_unresolved by done. by rewrite insert_id.
Qed.

Lemma process_event_applies self fr ty r σ e xr xo yr yo :
  ty ≠ "end" → σ !! r = Some e →
  entry_of self e xr xo yr yo → ud e !! marker ≠ Some fr →
  process_event self fr (ty, r) σ = (Ok tt, <[r := calibrated xr xo yr yo fr e]> σ).
Proof.
  intros Hty Hr Hent Hm. unfold process_event, on_object.
  apply String.eqb_neq in Hty. rewrite Hty, Hr.
  by rewrite (calibrate_event_applies _ _ _ xr xo yr yo).
Qed.

Lemma process_event_same_objects self fr item σ :
  same_objects σ (process_event self fr item σ).2.
Proof.
  destruct item as [ty r']. unfold process_event, on_object.
  destruct (String.eqb ty "end"); [apply same_objects_refl|].
  destruct (σ !! r') as [e|] eqn:He; [|apply same_objects_refl].
  destruct (calibrate_event self fr e) as [res e'] eqn:Hc. simpl.
  apply calibrate_event_same_object in Hc.
  intros r. destruct (decide (r = r')) as [->|Hne].
  - rewrite He, lookup_insert_eq. eauto.
  - rewrite lookup_insert_ne by done. destruct (σ !! r) as [e0|]; [|done].
    exists e0. split; [done | apply same_object_refl].
Qed.

Lemma process_event_wf self fr ty r σ :
  wf_table (devices self) →
  process_event self fr (ty, r) σ =
  (Ok tt, if String.eqb ty "end" then σ else alter (step self fr) r σ).
Proof.
  intros Hwf. unfold process_event, on_object.
  destruct (String.eqb ty "end"); [done|].
  destruct (σ !! r) as [e|] eqn:He.
  - rewrite calibrate_event_wf by done. f_equal.
    apply map_eq. intros i. destruct (decide (i = r)) as [->|Hne].
    + by rewrite lookup_insert_eq, lookup_alter_eq, He.
    + by rewrite lookup_insert_ne, lookup_alter_ne.
  - f_equal. apply map_eq. intros i. destruct (decide (i = r)) as [->|Hne].
    + by rewrite lookup_alter_eq, He.
    + by rewrite lookup_alter_ne.
Qed.

(** ** The loop *)

Lemma forM__same_objects self fr events σ :
  same_objects σ (forM_ (process_event self fr) events σ).2.
Proof.
  revert σ. induction events as [|item events IH]; intros σ.
  - apply same_objects_refl.
  - rewrite forM__cons. pose proof (process_event_same_objects self fr item σ) as H1.
    destruct (process_event self fr item σ) as [[[]|ex] σ1]; simpl in *; [|done].
    eapply same_objects_trans; [exact H1 | apply IH].
Qed.

(** An object that occurs only in "end" pairs, or that resolves to no
    key, is the same object after the loop, however the loop ends. *)
Lemma forM__untouched self fr events σ r :
  (∀ ty, (ty, r) ∈ events →
         ty = "end" ∨ ∃ e, σ !! r = Some e ∧ resolve self e = None) →
  (forM_ (process_event self fr) events σ).2 !! r = σ !! r.
Proof.
  revert σ. induction events as [|[ty r'] events IH]; intros σ Hin; [done|].
  rewrite forM__cons.
  assert ((process_event self fr (ty, r') σ).2 !! r = σ !! r) as H1.
  { destruct (decide (r = r')) as [<-|Hne]; [|by apply process_event_other].
    destruct (Hin ty) as [->|(e & He & Hres)]; [left| |].
    - by rewrite process_event_end.
    - by rewrite (process_event_unresolved _ _ _ _ _ e). }
  destruct (process_event self fr (ty, r') σ) as [[[]|ex] σ1]; simpl in *; [|done].
  rewrite IH; [done|]. intros ty' Hin'. rewrite H1. apply Hin. by right.
Qed.

Lemma touched_cons ty r' events r :
  touched r ((ty, r') :: events) =
  negb (String.eqb ty "end") && Nat.eqb r' r || touched r events.
Proof. done. Qed.

(** With a well-formed table the loop runs to its end, and an object is
    stepped once if it is touched at all. *)
Lemma forM__wf self fr events σ :
  wf_table (devices self) →
  ∃ σ', forM_ (process_event self fr) events σ = (Ok tt, σ') ∧
        ∀ r, σ' !! r = (if touched r events then step self fr else id) <$> σ !! r.
Proof.
  intros Hwf. revert σ. induction events as [|[ty r'] events IH]; intros σ.
  - exists σ. split; [done|]. intros r. simpl. by destruct (σ !! r).
  - rewrite forM__cons, process_event_wf by done.
    destruct (IH (if String.eqb ty "end" then σ else alter (step self fr) r' σ))
      as (σ' & Hrun & Hσ').
    exists σ'. split; [done|]. intros r. rewrite Hσ', touched_cons.
    destruct (String.eqb ty "end"); simpl; [done|].
    destruct (Nat.eqb_spec r' r) as [->|Hne]; simpl.
    + rewrite lookup_alter_eq. destruct (σ !! r) as [e|]; simpl; [|done].
      destruct (touched r events); simpl; [|done]. by rewrite step_idem.
    + by rewrite lookup_alter_ne.
Qed.

Lemma step_set_frame self f fr e :
  step (set_frame f self) fr e = step self fr e.
Proof. done. Qed.

(** ** [process] *)

Lemma process_empty self events σ :
  devices self = ∅ → process self events σ = (Ok events, self, σ).
Proof. intros H. unfold process. by rewrite decide_True. Qed.

Lemma process_wf self events σ :
  wf_table (devices self) → devices self ≠ ∅ →
  ∃ σ', process self events σ = (Ok events, set_frame (frame self + 1) self, σ') ∧
        ∀ r, σ' !! r =
             (if touched r events then step self (frame self + 1) else id) <$> σ !! r.
Proof.
  intros Hwf Hne. unfold process. rewrite decide_False by done.
  destruct (forM__wf (set_frame (frame self + 1) self) (frame self + 1) events σ Hwf)
    as (σ' & Hrun & Hσ').
  simpl. rewrite Hrun. by exists σ'.
Qed.

Lemma process_same_objects self events σ :
  same_objects σ (process self events σ).2.
Proof.
  unfold process. destruct (decide (devices self = ∅)); [apply same_objects_refl|].
  pose proof (forM__same_objects (set_frame (frame self + 1) self) (frame self + 1) events σ) as H.
  simpl. by destruct (forM_ _ events σ) as [[[]|ex] σ'].
Qed.

Lemma process_untouched self events σ r :
  (∀ ty, (ty, r) ∈ events →
         ty = "end" ∨ ∃ e, σ !! r = Some e ∧ resolve self e = None) →
  (process self events σ).2 !! r = σ !! r.
Proof.
  intros Hin. unfold process. destruct (decide (devices self = ∅)); [done|].
  pose proof (forM__untouched (set_frame (frame self + 1) self) (frame self + 1) events σ r) as H.
  simpl. destruct (forM_ _ events σ) as [[[]|ex] σ']; simpl in *; apply H; exact Hin.
Qed.

(** ** Entries cut down to the four fields *)

Lemma restrict_lookup ps f : f ∈ known_keys → restrict ps !! f = ps !! f.
Proof.
  intros Hf. unfold restrict. destruct (ps !! f) as [v|] eqn:E.
  - by apply map_lookup_filter_Some.
  - apply map_lookup_filter_None. by left.
Qed.

Lemma has_key_fmap {A B} (g : A → B) (d : gmap string A) k :
  has_key (g <$> d) k = has_key d k.
Proof. unfold has_key. rewrite lookup_fmap. by destruct (d !! k). Qed.

Lemma scan_classes_keys devs devs' e key cls :
  (∀ k, has_key devs' k = has_key devs k) →
  scan_classes devs' e key cls = scan_classes devs e key cls.
Proof.
  intros Hk. induction cls as [|ec cls IHc]; simpl; [done|]. by rewrite Hk, IHc.
Qed.

Lemma scan_providers_keys devs devs' e pm :
  (∀ k, has_key devs' k = has_key devs k) →
  scan_providers devs' e pm = scan_providers devs e pm.
Proof.
  intros Hk. induction pm as [|[input_type cls] pm IH]; simpl; [done|].
  by rewrite IH, (scan_classes_keys devs devs').
Qed.

Lemma resolve_canonical self e : resolve (canonical self) e = resolve self e.
Proof.
  unfold resolve, _get_provider_key. simpl.
  rewrite (scan_providers_keys (devices self)) by apply has_key_fmap.
  destruct (device e) as [d|]; [|done]. by rewrite has_key_fmap.
Qed.

Lemma transform_canonical self fr dev e :
  transform (canonical self) fr dev e = transform self fr dev e.
Proof.
  unfold transform, bind, getitem, modify, ret, raise. simpl.
  rewrite lookup_fmap. destruct (devices self !! dev) as [ps|]; simpl; [|done].
  rewrite !restrict_lookup by set_solver. done.
Qed.

Lemma calibrate_event_canonical self fr e :
  calibrate_event (canonical self) fr e = calibrate_event self fr e.
Proof.
  unfold calibrate_event, bind, get. rewrite resolve_canonical.
  destruct (resolve self e) as [dev|]; [|done].
  destruct (PyStr.is_empty dev); [done|].
  destruct (ud e !! marker) as [f|]; simpl.
  - unfold ret. destruct (negb (f =? fr)); simpl; [|done]. apply transform_canonical.
  - unfold modify, ret. simpl. apply transform_canonical.
Qed.

Lemma forM__canonical self fr events σ :
  forM_ (process_event (canonical self) fr) events σ =
  forM_ (process_event self fr) events σ.
Proof.
  revert σ. induction events as [|[ty r] events IH]; intros σ; [done|].
  rewrite !forM__cons.
  assert (process_event (canonical self) fr (ty, r) σ = process_event self fr (ty, r) σ) as ->.
  { unfold process_event, on_object. destruct (String.eqb ty "end"); [done|].
    destruct (σ !! r) as [e|]; [|done]. by rewrite calibrate_event_canonical. }
  destruct (process_event self fr (ty, r) σ) as [[[]|ex] σ1]; [apply IH | done].
Qed.

Lemma process_canonical self events σ :
  process (canonical self) events σ =
  (let '(res, self', σ') := process self events σ in (res, canonical self', σ')).
Proof.
  unfold process. simpl.
  destruct (decide (devices self = ∅)) as [He|Hne].
  - rewrite decide_True; [done|]. by apply fmap_empty_iff.
  - rewrite decide_False by (by rewrite fmap_empty_iff).
    pose proof (forM__canonical (set_frame (frame self + 1) self) (frame self + 1) events σ) as H.
    unfold canonical, set_frame in *. simpl in *. rewrite H. clear H.
    destruct (forM_ _ events σ) as [[[]|ex] σ']; reflexivity.
Qed.

(** ** The string methods *)

Lemma split1_no_sep sep s : PyStr.contains sep s = false → PyStr.split1 sep s = [s].
Proof.
  induction s as [|c s IH]; simpl; [done|].
  destruct (Ascii.eqb c sep); simpl; [done|]. intros H. by rewrite IH.
Qed.

(** ** Table construction *)

Lemma foldM_cons {S A B} (body : A → B → M S A) x xs acc s :
  foldM body (x :: xs) acc s =
  match body acc x s with
  | (Ok acc', s') => foldM body xs acc' s'
  | (Raise e, s') => (Raise e, s')
  end.
Proof. done. Qed.

Lemma foldM_app {S A B} (body : A → B → M S A) xs ys acc s :
  foldM body (xs ++ ys) acc s =
  match foldM body xs acc s with
  | (Ok acc', s') => foldM body ys acc' s'
  | (Raise e, s') => (Raise e, s')
  end.
Proof.
  revert acc s. induction xs as [|x xs IH]; intros acc s; [done|].
  rewrite <- app_comm_cons, !foldM_cons.
  destruct (body acc x s) as [[acc'|e] s']; [apply IH | done].
Qed.

(** A loop whose body keeps [P] keeps [P], when it runs to its end. *)
Lemma foldM_invariant {S A B} (body : A → B → M S A) (P : A → Prop) :
  (∀ acc x s acc' s', P acc → body acc x s = (Ok acc', s') → P acc') →
  ∀ xs acc s acc' s', P acc → foldM body xs acc s = (Ok acc', s') → P acc'.
Proof.
  intros Hbody xs. induction xs as [|x xs IH]; intros acc s acc' s' HP.
  - by intros [= <- _].
  - rewrite foldM_cons. destruct (body acc x s) as [[acc1|e] s1] eqn:E; [|done].
    apply IH. by eapply Hbody.
Qed.

Section InitFacts.

Variable py_float : string → option float.

Lemma parse_param_empty ps t l :
  PyStr.is_empty (PyStr.strip t) = true → parse_param py_float ps t l = (Ok ps, l).
Proof. intros H. unfold parse_param. by rewrite H. Qed.

Lemma parse_param_no_equals ps t l :
  PyStr.is_empty (PyStr.strip t) = false →
  PyStr.contains "=" (PyStr.strip t) = false →
  parse_param py_float ps t l = (Raise (ValueError NotEnoughValues), l).
Proof.
  intros Hne Hc. unfold parse_param. rewrite Hne, split1_no_sep by done. done.
Qed.

Lemma parse_param_not_float ps t l key value :
  PyStr.is_empty (PyStr.strip t) = false →
  PyStr.split1 "=" (PyStr.strip t) = [key; value] →
  py_float value = None →
  parse_param py_float ps t l =
  (Raise (ValueError (NotAFloat value)), invalid_key key l).
Proof.
  intros Hne Hs Hf. unfold parse_param, invalid_key. rewrite Hne, Hs.
  unfold unpack2, bind, ret, float_of, Logger_error, modify, raise. rewrite Hf.
  by destruct (bool_decide (key ∈ known_keys)).
Qed.

Lemma parse_param_stores ps t l key value v :
  PyStr.is_empty (PyStr.strip t) = false →
  PyStr.split1 "=" (PyStr.strip t) = [key; value] →
  py_float value = Some v →
  parse_param py_float ps t l = (Ok (<[key := v]> ps), invalid_key key l).
Proof.
  intros Hne Hs Hf. unfold parse_param, invalid_key. rewrite Hne, Hs.
  unfold unpack2, bind, ret, float_of, Logger_error, modify, raise. rewrite Hf.
  by destruct (bool_decide (key ∈ known_keys)).
Qed.

Lemma token_ok_no_equals t :
  PyStr.is_empty (PyStr.strip t) = false →
  PyStr.contains "=" (PyStr.strip t) = false →
  token_ok py_float t = false.
Proof. intros Hne Hc. unfold token_ok. by rewrite Hne, split1_no_sep. Qed.

Lemma token_ok_not_float t key value :
  PyStr.is_empty (PyStr.strip t) = false →
  PyStr.split1 "=" (PyStr.strip t) = [key; value] →
  py_float value = None →
  token_ok py_float t = false.
Proof. intros Hne Hs Hf. unfold token_ok. by rewrite Hne, Hs, Hf. Qed.

(** The loop body returns on the tokens that are [token_ok], keeping the
    fields the entry has, and raises on the others. *)
Lemma parse_param_ok ps t l :
  token_ok py_float t = true →
  ∃ ps' l', parse_param py_float ps t l = (Ok ps', l') ∧
            ∀ f, is_Some (ps !! f) → is_Some (ps' !! f).
Proof.
  unfold token_ok. destruct (PyStr.is_empty (PyStr.strip t)) eqn:He; simpl.
  { intros _. exists ps, l. by rewrite parse_param_empty. }
  destruct (PyStr.split1 "=" (PyStr.strip t)) as [|key [|value [|]]] eqn:Hs; try done.
  destruct (py_float value) as [v|] eqn:Hf; [|done]. intros _.
  exists (<[key := v]> ps), (invalid_key key l).
  split; [by apply (parse_param_stores _ _ _ _ value)|].
  intros f Hf'. destruct (decide (key = f)) as [->|Hne].
  - rewrite lookup_insert_eq. eauto.
  - by rewrite lookup_insert_ne.
Qed.

Lemma parse_param_bad ps t l :
  token_ok py_float t = false → ∃ e l', parse_param py_float ps t l = (Raise e, l').
Proof.
  unfold token_ok, parse_param.
  destruct (PyStr.is_empty (PyStr.strip t)) eqn:He; simpl; [done|].
  destruct (PyStr.split1 "=" (PyStr.strip t)) as [|key [|value [|]]] eqn:Hs;
    try (intros _; eexists _, _; reflexivity).
  unfold unpack2, bind, ret, float_of, Logger_error, modify, raise.
  destruct (py_float value) as [v|] eqn:Hf; [done|]. intros _.
  destruct (bool_decide (key ∈ known_keys)); eexists _, _; reflexivity.
Qed.

Lemma parse_params_ok toks ps l :
  forallb (token_ok py_float) toks = true →
  ∃ ps' l', foldM (parse_param py_float) toks ps l = (Ok ps', l') ∧
            ∀ f, is_Some (ps !! f) → is_Some (ps' !! f).
Proof.
  revert ps l. induction toks as [|t toks IH]; intros ps l; simpl.
  - intros _. by exists ps, l.
  - intros [Ht Hts]%andb_true_iff.
    destruct (parse_param_ok ps t l Ht) as (ps1 & l1 & E1 & K1).
    destruct (IH ps1 l1 Hts) as (ps2 & l2 & E2 & K2).
    exists ps2, l2. unfold bind. rewrite E1. split; [done|]. eauto.
Qed.

(** The first token that raises ends the loop with its exception. *)
Lemma parse_params_raise toks1 t toks2 e ps l :
  forallb (token_ok py_float) toks1 = true →
  (∀ ps l, ∃ l', parse_param py_float ps t l = (Raise e, l')) →
  ∃ l', foldM (parse_param py_float) (toks1 ++ t :: toks2) ps l = (Raise e, l').
Proof.
  intros H1 Ht. rewrite foldM_app.
  destruct (parse_params_ok toks1 ps l H1) as (ps1 & l1 & -> & _).
  rewrite foldM_cons. destruct (Ht ps1 l1) as (l' & ->). by exists l'.
Qed.

Lemma parse_params_bad toks ps l :
  forallb (token_ok py_float) toks = false →
  ∃ e l', foldM (parse_param py_float) toks ps l = (Raise e, l').
Proof.
  revert ps l. induction toks as [|t toks IH]; intros ps l; simpl; [done|].
  destruct (token_ok py_float t) eqn:Ht; simpl.
  - intros Hts. destruct (parse_param_ok ps t l Ht) as (ps1 & l1 & E1 & _).
    unfold bind. rewrite E1. by apply IH.
  - intros _. destruct (parse_param_bad ps t l Ht) as (e & l' & E).
    exists e, l'. unfold bind. by rewrite E.
Qed.

Lemma parse_entry_ok devs item l :
  entry_ok py_float item = true →
  ∃ ps l', parse_entry py_float devs item l = (Ok (<[item.1 := ps]> devs), l') ∧
           ∀ f, f ∈ known_keys → is_Some (ps !! f).
Proof.
  destruct item as [dk s]. unfold entry_ok, parse_entry. simpl. intros H.
  destruct (parse_params_ok _ default_params l H) as (ps & l' & E & K).
  exists ps, l'. unfold bind. rewrite E. split; [done|].
  intros f Hf. apply K.
  apply list_elem_of_In in Hf. simpl in Hf.
  destruct Hf as [<-|[<-|[<-|[<-|[]]]]]; by eexists.
Qed.

Lemma parse_entry_raise devs dk s toks1 t toks2 e l :
  PyStr.split "," s = toks1 ++ t :: toks2 →
  forallb (token_ok py_float) toks1 = true →
  (∀ ps l, ∃ l', parse_param py_float ps t l = (Raise e, l')) →
  ∃ l', parse_entry py_float devs (dk, s) l = (Raise e, l').
Proof.
  intros Hs H1 Ht. unfold parse_entry. rewrite Hs.
  destruct (parse_params_raise toks1 t toks2 e default_params l H1 Ht) as (l' & E).
  exists l'. unfold bind. by rewrite E.
Qed.

Lemma parse_entry_bad devs item l :
  entry_ok py_float item = false →
  ∃ e l', parse_entry py_float devs item l = (Raise e, l').
Proof.
  destruct item as [dk s]. unfold entry_ok, parse_entry. simpl. intros H.
  destruct (parse_params_bad _ default_params l H) as (e & l' & E).
  exists e, l'. unfold bind. by rewrite E.
Qed.

Lemma entries_ok items devs l :
  forallb (entry_ok py_float) items = true →
  ∃ devs' l', foldM (parse_entry py_float) items devs l = (Ok devs', l').
Proof.
  revert devs l. induction items as [|item items IH]; intros devs l; simpl.
  - intros _. by exists devs, l.
  - intros [Hi His]%andb_true_iff.
    destruct (parse_entry_ok devs item l Hi) as (ps & l1 & E1 & _).
    unfold bind. rewrite E1. by apply IH.
Qed.

Lemma entries_bad items devs l :
  forallb (entry_ok py_float) items = false →
  ∃ e l', foldM (parse_entry py_float) items devs l = (Raise e, l').
Proof.
  revert devs l. induction items as [|item items IH]; intros devs l; simpl; [done|].
  destruct (entry_ok py_float item) eqn:Hi; simpl.
  - intros His. destruct (parse_entry_ok devs item l Hi) as (ps & l1 & E1 & _).
    unfold bind. rewrite E1. by apply IH.
  - intros _. destruct (parse_entry_bad devs item l Hi) as (e & l' & E).
    exists e, l'. unfold bind. by rewrite E.
Qed.

(** [__init__] returns a stage exactly when every token of every entry
    is [token_ok]; otherwise it raises, and there is no stage. *)
Lemma init_returns items pm l :
  forallb (entry_ok py_float) items = true →
  ∃ self l', __init__ py_float (Some items) pm l = (Ok self, l').
Proof.
  intros H. destruct (entries_ok items ∅ l H) as (devs & l' & E).
  exists (Stage devs 0 pm), l'. unfold __init__, bind. by rewrite E.
Qed.

Lemma init_raises items pm l :
  forallb (entry_ok py_float) items = false →
  ∃ e l', __init__ py_float (Some items) pm l = (Raise e, l').
Proof.
  intros H. destruct (entries_bad items ∅ l H) as (e & l' & E).
  exists e, l'. unfold __init__, bind. by rewrite E.
Qed.

(** The first token that raises, in the first entry that has one, ends
    [__init__] with its exception. *)
Lemma init_raises_at pre dk s post toks1 t toks2 e pm l :
  forallb (entry_ok py_float) pre = true →
  PyStr.split "," s = toks1 ++ t :: toks2 →
  forallb (token_ok py_float) toks1 = true →
  (∀ ps l, ∃ l', parse_param py_float ps t l = (Raise e, l')) →
  ∃ l', __init__ py_float (Some (pre ++ (dk, s) :: post)) pm l = (Raise e, l').
Proof.
  intros Hpre Hs H1 Ht. unfold __init__, bind. rewrite foldM_app.
  destruct (entries_ok pre ∅ l Hpre) as (devs & l1 & ->).
  rewrite foldM_cons.
  destruct (parse_entry_raise devs dk s toks1 t toks2 e l1 Hs H1 Ht) as (l' & ->).
  by exists l'.
Qed.

Lemma entry_ok_bad_token dk s toks1 t toks2 :
  PyStr.split "," s = toks1 ++ t :: toks2 →
  token_ok py_float t = false → entry_ok py_float (dk, s) = false.
Proof.
  intros Hs Ht. unfold entry_ok. simpl. rewrite Hs, forallb_app. simpl.
  rewrite Ht. by rewrite andb_false_r.
Qed.

Lemma entries_ok_bad_entry pre item post :
  entry_ok py_float item = false →
  forallb (entry_ok py_float) (pre ++ item :: post) = false.
Proof. intros H. rewrite forallb_app. simpl. rewrite H. by rewrite andb_false_r. Qed.

(** The stage [__init__] returns: a fresh frame counter, the provider
    map, and a table whose entries all hold the four fields. *)
Lemma init_stage config pm l self l' :
  __init__ py_float config pm l = (Ok self, l') →
  frame self = 0 ∧ provider_map self = pm ∧ wf_table (devices self).
Proof.
  unfold __init__. destruct config as [items|].
  - unfold bind. destruct (foldM _ items ∅ l) as [[devs|e] l1] eqn:E; [|done].
    intros [= <- _]. simpl. repeat split.
    revert E. apply (foldM_invariant (parse_entry py_float) wf_table); [|done].
    intros devs0 item s devs1 s1 Hwf. destruct (entry_ok py_float item) eqn:Hi.
    + destruct (parse_entry_ok devs0 item s Hi) as (ps & l2 & -> & K).
      intros [= <- _] k ps' Hk f Hf.
      destruct (decide (item.1 = k)) as [<-|Hne].
      * rewrite lookup_insert_eq in Hk. injection Hk as <-. by apply K.
      * rewrite lookup_insert_ne in Hk by done. by apply (Hwf k ps').
    + by destruct (parse_entry_bad devs0 item s Hi) as (e & l2 & ->).
  - intros [= <- _]. by repeat split.
Qed.

End InitFacts.

(** ** Further facts about resolution and [process] *)

Lemma scan_classes_existsb devs e key cls :
  scan_classes devs e key cls =
  if existsb (isinstance e) cls && has_key devs key then Some key else None.
Proof.
  induction cls as [|ec cls IH]; simpl; [done|]. rewrite IH.
  destruct (isinstance e ec), (has_key devs key); simpl; try done.
  by rewrite andb_false_r.
Qed.

(** The two nested loops of [_get_provider_key] select the first provider
    entry that matches. *)
Lemma scan_providers_first_match devs e pm :
  scan_providers devs e pm = first_match devs e pm.
Proof.
  unfold first_match. induction pm as [|[input_type cls] pm IH]; [done|].
  cbn [scan_providers List.find]. rewrite scan_classes_existsb.
  unfold provider_matches at 1. cbn [fst snd]. fold (provider_key input_type).
  by destruct (existsb (isinstance e) cls && has_key devs (provider_key input_type)).
Qed.

Lemma first_match_none devs e pm :
  Forall (λ entry, provider_matches devs e entry = false) pm →
  first_match devs e pm = None.
Proof.
  unfold first_match. induction 1 as [|entry pm Hm _ IH]; [done|].
  cbn [List.find]. by rewrite Hm.
Qed.

Lemma touched_elem ty r events :
  (ty, r) ∈ events → ty ≠ "end" → touched r events = true.
Proof.
  intros Hin Hty. unfold touched. apply existsb_exists.
  exists (ty, r). split; [by apply list_elem_of_In|]. simpl.
  rewrite Nat.eqb_refl, andb_true_r. apply negb_true_iff. by apply String.eqb_neq.
Qed.

Lemma entry_of_nonempty self e xr xo yr yo :
  entry_of self e xr xo yr yo → devices self ≠ ∅.
Proof.
  intros (dev & ps & _ & _ & Hd & _) He. rewrite He in Hd. by rewrite lookup_empty in Hd.
Qed.

Lemma entry_of_calibrated self e xr xo yr yo xr' xo' yr' yo' fr :
  entry_of self e xr xo yr yo →
  entry_of self (calibrated xr' xo' yr' yo' fr e) xr xo yr yo.
Proof.
  intros (dev & ps & Hr & H). exists dev, ps. by rewrite resolve_calibrated.
Qed.

(** With a well-formed table [process] returns the batch, whether the
    table is empty or not. *)
Lemma process_returns self events σ :
  wf_table (devices self) →
  ∃ self' σ', process self events σ = (Ok events, self', σ').
Proof.
  intros Hwf. destruct (decide (devices self = ∅)) as [He|Hne].
  - exists self, σ. by apply process_empty.
  - destruct (process_wf self events σ Hwf Hne) as (σ' & E & _). eauto.
Qed.

Lemma demo_init :
  __init__ float_literal (Some demo_config) demo_providers [] = (Ok demo_stage, []).
Proof. vm_compute. reflexivity. Qed.

Lemma demo_wf : wf_table (devices demo_stage).
Proof. exact (proj2 (proj2 (init_stage float_literal _ _ _ _ _ demo_init))). Qed.

Lemma demo_entry_of : entry_of demo_stage demo_event 0.5 0.1 2 0.
Proof. exists "left", demo_left. repeat split; vm_compute; reflexivity. Qed.

(** * The claims *)

(** C1 (as amended).  On a pair that is no "end", whose object resolves to
    a key that is not the empty string (the hypothesis [entry_of] says
    so: line 118 skips the empty key) with an entry that holds [xratio],
    [xoffset], [yratio], [yoffset], and whose frame mark is not the one of
    the current frame, the loop body overwrites the position of the object
    with [sx * xratio + xoffset] and [sy * yratio + yoffset], in binary64
    arithmetic, and marks it with the current frame.  When the table is
    well formed, such an object comes out of the whole call of [process]
    with that position and mark.
    For the entry [{xratio=0.5, xoffset=0.1, yratio=2.0, yoffset=0.0}] and
    the input [(0.4, 0.3)] the output is [(0.30000000000000004, 0.6)]: the
    binary64 sum [0.2 + 0.1] is the number next above [0.3]. *)
Theorem process_applies_transform :
  (∀ self fr σ ty r e xr xo yr yo,
     ty ≠ "end" →
     σ !! r = Some e →
     entry_of self e xr xo yr yo →
     ud e !! marker ≠ Some fr →
     process_event self fr (ty, r) σ
       = (Ok tt, <[r := Event (device e) (mro e)
                           (sx e * xr + xo)%float (sy e * yr + yo)%float
                           (<[marker := fr]> (ud e))]> σ)) ∧
  (∀ self events σ ty r e xr xo yr yo,
     wf_table (devices self) →
     (ty, r) ∈ events → ty ≠ "end" →
     σ !! r = Some e →
     entry_of self e xr xo yr yo →
     ud e !! marker ≠ Some (frame self + 1) →
     ∃ σ', process self events σ = (Ok events, set_frame (frame self + 1) self, σ') ∧
           σ' !! r = Some (calibrated xr xo yr yo (frame self + 1) e) ∧
           sx (calibrated xr xo yr yo (frame self + 1) e) = (sx e * xr + xo)%float ∧
           sy (calibrated xr xo yr yo (frame self + 1) e) = (sy e * yr + yo)%float) ∧
  (∃ e', (process demo_stage [("update", 0%nat)] demo_store).2 !! 0%nat = Some e' ∧
         sx e' = 0.30000000000000004%float ∧ sy e' = 0.6%float).
Proof.
  split; [|split].
  - intros self fr σ ty r e xr xo yr yo Hty Hr Hent Hm.
    by apply process_event_applies.
  - intros self events σ ty r e xr xo yr yo Hwf Hin Hty Hr Hent Hm.
    destruct (process_wf self events σ Hwf (entry_of_nonempty _ _ _ _ _ _ Hent))
      as (σ' & E & Hσ').
    exists σ'. split; [done|]. split; [|done].
    rewrite Hσ', Hr, (touched_elem ty) by done. simpl.
    by rewrite (step_applies _ _ _ xr xo yr yo).
  - eexists. split; [vm_compute; reflexivity|]. split; reflexivity.
Qed.

Lemma process_applies_transform_witness :
  ∃ σ', process demo_stage demo_batch demo_store = (Ok demo_batch, set_frame 1 demo_stage, σ') ∧
        σ' !! 0%nat = Some (calibrated 0.5 0.1 2 0 1 demo_event) ∧
        sx (calibrated 0.5 0.1 2 0 1 demo_event) = (0.4 * 0.5 + 0.1)%float ∧
        sy (calibrated 0.5 0.1 2 0 1 demo_event) = (0.3 * 2 + 0)%float.
Proof.
  apply (proj1 (proj2 process_applies_transform) demo_stage demo_batch demo_store
           "update" 0%nat demo_event 0.5%float 0.1%float 2%float 0%float).
  - exact demo_wf.
  - apply list_elem_of_here.
  - discriminate.
  - reflexivity.
  - exact demo_entry_of.
  - vm_compute. discriminate.
Defined.

(** C1, as stated, fails twice.  An event that is no "end", whose device
    name is the empty string, with a table entry under the empty key that
    holds the four fields, and with no frame mark, resolves to that entry
    and yet comes out of [process] as it went in: line 118 skips the
    empty key, and its [sx] is not [sx * xratio + xoffset].  And on the
    claim's own example the transform is applied, but the [sx] it leaves
    is [0.30000000000000004], which is not the binary64 number [0.3]. *)
Lemma process_claimed_transform_fails :
  (resolve demo_empty_stage demo_empty_event = Some "" ∧
   devices demo_empty_stage !! "" = Some demo_left ∧
   entry_has demo_left 0.5 0.1 2 0 ∧
   ud demo_empty_event !! marker = None ∧
   (process demo_empty_stage [("update", 0%nat)] (<[0%nat := demo_empty_event]> ∅)).2 !! 0%nat
     = Some demo_empty_event ∧
   PrimFloat.eqb (sx demo_empty_event) (sx demo_empty_event * 0.5 + 0.1) = false) ∧
  (∃ e', (process demo_stage [("update", 0%nat)] demo_store).2 !! 0%nat = Some e' ∧
         sx demo_event = 0.4%float ∧ sy demo_event = 0.3%float ∧
         sx e' = (0.4 * 0.5 + 0.1)%float ∧
         sx e' = 0.30000000000000004%float ∧
         PrimFloat.eqb (sx e') 0.3 = false ∧
         sy e' = 0.6%float).
Proof.
  split.
  - repeat split; vm_compute; reflexivity.
  - eexists. split; [vm_compute; reflexivity|]. repeat split.
Qed.

(** C2.  In one call of [process], on a well-formed table, an object that
    is touched and has an entry is handled by its frame mark: with no mark
    it is mutated and marked with the current frame; with the mark of the
    current frame it is left as it is; with the mark of another frame it
    is mutated and the mark overwritten.  Every object of the store comes
    out either as it was or with the transform applied once, however
    often it occurs in the batch.  A second call on the same batch is a
    new frame and applies the transform again. *)
Theorem process_once_per_frame self events σ ty r e xr xo yr yo :
  wf_table (devices self) →
  (ty, r) ∈ events → ty ≠ "end" →
  σ !! r = Some e →
  entry_of self e xr xo yr yo →
  ∃ σ', process self events σ = (Ok events, set_frame (frame self + 1) self, σ') ∧
    (ud e !! marker = None →
     σ' !! r = Some (calibrated xr xo yr yo (frame self + 1) e)) ∧
    (ud e !! marker = Some (frame self + 1) → σ' !! r = Some e) ∧
    (∀ f, ud e !! marker = Some f → f ≠ frame self + 1 →
     σ' !! r = Some (calibrated xr xo yr yo (frame self + 1) e)) ∧
    (∀ r0 e0, σ !! r0 = Some e0 →
       σ' !! r0 = Some e0 ∨
       ∃ xr0 xo0 yr0 yo0, entry_of self e0 xr0 xo0 yr0 yo0 ∧
         σ' !! r0 = Some (calibrated xr0 xo0 yr0 yo0 (frame self + 1) e0)) ∧
    (ud e !! marker ≠ Some (frame self + 1) →
     ∃ σ'', process (set_frame (frame self + 1) self) events σ' =
              (Ok events, set_frame (frame self + 2) self, σ'') ∧
            σ'' !! r = Some (calibrated xr xo yr yo (frame self + 2)
                               (calibrated xr xo yr yo (frame self + 1) e))).
Proof.
  intros Hwf Hin Hty Hr Hent.
  pose proof (entry_of_nonempty _ _ _ _ _ _ Hent) as Hne.
  pose proof (touched_elem _ _ _ Hin Hty) as Ht.
  destruct (process_wf self events σ Hwf Hne) as (σ' & E & Hσ').
  exists σ'. split; [done|].
  assert (ud e !! marker ≠ Some (frame self + 1) →
          σ' !! r = Some (calibrated xr xo yr yo (frame self + 1) e)) as Happ.
  { intros Hm. rewrite Hσ', Hr, Ht. simpl. by rewrite (step_applies _ _ _ xr xo yr yo). }
  repeat split.
  - intros Hm. apply Happ. by rewrite Hm.
  - intros Hm. rewrite Hσ', Hr, Ht. simpl. f_equal.
    unfold step. destruct Hent as (dev & ps & -> & -> & _).
    by rewrite bool_decide_eq_true_2.
  - intros f Hm Hf. apply Happ. rewrite Hm. congruence.
  - intros r0 e0 Hr0. rewrite Hσ', Hr0. simpl.
    destruct (touched r0 events); [|by left].
    destruct (step_unmarked_or_marked self (frame self + 1) e0)
      as [->|(xr0 & xo0 & yr0 & yo0 & Hent0 & _ & ->)]; [by left|].
    right. by exists xr0, xo0, yr0, yo0.
  - intros Hm.
    destruct (process_wf (set_frame (frame self + 1) self) events σ' Hwf Hne)
      as (σ'' & E' & Hσ'').
    exists σ''. split.
    + rewrite E'. do 2 f_equal. unfold set_frame. simpl. f_equal. lia.
    + rewrite Hσ'', (Happ Hm), Ht. simpl. f_equal.
      replace (frame self + 1 + 1) with (frame self + 2) by lia.
      rewrite step_set_frame. apply step_applies.
      * by apply entry_of_calibrated.
      * simpl. rewrite lookup_insert_eq. intros [= H]. lia.
Qed.

Lemma process_once_per_frame_witness :
  ∃ σ', process demo_stage demo_batch demo_store = (Ok demo_batch, set_frame (0 + 1) demo_stage, σ') ∧
    (ud demo_event !! marker = None →
     σ' !! 0%nat = Some (calibrated 0.5 0.1 2 0 (0 + 1) demo_event)) ∧
    (ud demo_event !! marker = Some (0 + 1) → σ' !! 0%nat = Some demo_event) ∧
    (∀ f, ud demo_event !! marker = Some f → f ≠ 0 + 1 →
     σ' !! 0%nat = Some (calibrated 0.5 0.1 2 0 (0 + 1) demo_event)) ∧
    (∀ r0 e0, demo_store !! r0 = Some e0 →
       σ' !! r0 = Some e0 ∨
       ∃ xr0 xo0 yr0 yo0, entry_of demo_stage e0 xr0 xo0 yr0 yo0 ∧
         σ' !! r0 = Some (calibrated xr0 xo0 yr0 yo0 (0 + 1) e0)) ∧
    (ud demo_event !! marker ≠ Some (0 + 1) →
     ∃ σ'', process (set_frame (0 + 1) demo_stage) demo_batch σ' =
              (Ok demo_batch, set_frame (0 + 2) demo_stage, σ'') ∧
            σ'' !! 0%nat = Some (calibrated 0.5 0.1 2 0 (0 + 2)
                                   (calibrated 0.5 0.1 2 0 (0 + 1) demo_event))).
Proof.
  apply (process_once_per_frame demo_stage demo_batch demo_store "update" 0%nat).
  - exact demo_wf.
  - apply list_elem_of_here.
  - discriminate.
  - reflexivity.
  - exact demo_entry_of.
Defined.

(** C3.  The key of an event that is no "end": its device name when that
    is a key of the table; otherwise the parenthesized key of the first
    entry of the provider map, in its order, one of whose event classes
    the event is an instance of and whose parenthesized key is in the
    table; otherwise none, and then [process] leaves the object exactly as
    it was: position, mark and all. *)
Theorem resolve_spec self e :
  (∀ d, device e = Some d → is_Some (devices self !! d) → resolve self e = Some d) ∧
  ((∀ d, device e = Some d → devices self !! d = None) →
   resolve self e = first_match (devices self) e (provider_map self)) ∧
  ((∀ d, device e = Some d → devices self !! d = None) →
   Forall (λ entry, provider_matches (devices self) e entry = false) (provider_map self) →
   resolve self e = None ∧
   ∀ events σ r, σ !! r = Some e → (process self events σ).2 !! r = Some e).
Proof.
  assert ((∀ d, device e = Some d → devices self !! d = None) →
          resolve self e = first_match (devices self) e (provider_map self)) as Hscan.
  { intros Hout. unfold resolve, _get_provider_key.
    rewrite scan_providers_first_match.
    destruct (device e) as [d|]; [|done].
    unfold has_key. by rewrite (Hout d). }
  split; [|split; [exact Hscan|]].
  - intros d Hd Hin. unfold resolve. rewrite Hd.
    apply has_key_true in Hin. by rewrite Hin.
  - intros Hout Hnone.
    assert (resolve self e = None) as Hres.
    { rewrite Hscan by done. by apply first_match_none. }
    split; [done|].
    intros events σ r Hr. rewrite <- Hr. apply process_untouched.
    intros ty _. right. by exists e.
Qed.

Lemma resolve_spec_witness :
  resolve demo_stage demo_event = Some "left" ∧
  resolve demo_stage demo_right = Some "(mtdev)" ∧
  (process demo_stage [("update", 2%nat); ("update", 0%nat)] demo_store).2 !! 2%nat
    = Some demo_mouse.
Proof.
  split; [|split].
  - apply (proj1 (resolve_spec demo_stage demo_event) "left"); [reflexivity|].
    exists demo_left. vm_compute. reflexivity.
  - rewrite (proj1 (proj2 (resolve_spec demo_stage demo_right))).
    + vm_compute. reflexivity.
    + intros d [= <-]. vm_compute. reflexivity.
  - apply (proj2 (proj2 (resolve_spec demo_stage demo_mouse))).
    + intros d [= <-]. vm_compute. reflexivity.
    + repeat constructor.
    + vm_compute. reflexivity.
Defined.

(** C4.  With an empty table [process] returns the batch it was given and
    leaves the stage, its frame counter included, and the store as they
    were.  With a table that is not empty a call adds one to the frame
    counter, which [__init__] starts at 0. *)
Theorem process_empty_table (py_float : string → option float) :
  (∀ self events σ,
     devices self = ∅ → process self events σ = (Ok events, self, σ)) ∧
  (∀ self events σ,
     devices self ≠ ∅ → frame (process self events σ).1.2 = frame self + 1) ∧
  (∀ config pm l self l',
     __init__ py_float config pm l = (Ok self, l') → frame self = 0).
Proof.
  split; [|split].
  - apply process_empty.
  - intros self events σ Hne. unfold process. rewrite decide_False by done.
    simpl. by destruct (forM_ _ events σ) as [[[]|ex] σ'].
  - intros config pm l self l' H. by destruct (init_stage _ _ _ _ _ _ H).
Qed.

Lemma process_empty_table_witness :
  process (Stage ∅ 7 demo_providers) demo_batch demo_store
    = (Ok demo_batch, Stage ∅ 7 demo_providers, demo_store) ∧
  frame (process demo_stage demo_batch demo_store).1.2 = frame demo_stage + 1 ∧
  frame demo_stage = 0.
Proof.
  split; [|split].
  - apply (proj1 (process_empty_table float_literal)). reflexivity.
  - apply (proj1 (proj2 (process_empty_table float_literal))).
    intros H. apply (f_equal (λ m, m !! "left")) in H. vm_compute in H. discriminate.
  - apply (proj2 (proj2 (process_empty_table float_literal))
             (Some demo_config) demo_providers [] demo_stage []).
    vm_compute. reflexivity.
Defined.

(** C5 (as amended).  A value that [float] refuses, in a token
    [name=value], makes [__init__] raise: there is no table, neither the
    fields of that entry parsed before the token nor any other entry.
    When no token before it raises, in its entry or in the entries before,
    the exception is the [ValueError] of [float(value)]. *)
Theorem init_non_numeric_value (py_float : string → option float)
    pre dk s post toks1 t toks2 key value pm l :
  PyStr.split "," s = toks1 ++ t :: toks2 →
  PyStr.is_empty (PyStr.strip t) = false →
  PyStr.split1 "=" (PyStr.strip t) = [key; value] →
  py_float value = None →
  ∃ e l', __init__ py_float (Some (pre ++ (dk, s) :: post)) pm l = (Raise e, l') ∧
          (forallb (entry_ok py_float) pre = true →
           forallb (token_ok py_float) toks1 = true →
           e = ValueError (NotAFloat value)).
Proof.
  intros Hs Hne Hkv Hf.
  pose proof (token_ok_not_float py_float t key value Hne Hkv Hf) as Hbad.
  destruct (forallb (entry_ok py_float) pre && forallb (token_ok py_float) toks1) eqn:Hfirst.
  - apply andb_true_iff in Hfirst as [Hpre H1].
    destruct (init_raises_at py_float pre dk s post toks1 t toks2
                (ValueError (NotAFloat value)) pm l Hpre Hs H1) as (l' & E).
    { intros ps l0. eexists. by apply (parse_param_not_float _ _ _ _ key). }
    by exists (ValueError (NotAFloat value)), l'.
  - destruct (init_raises py_float (pre ++ (dk, s) :: post) pm l) as (e & l' & E).
    { apply entries_ok_bad_entry. by eapply entry_ok_bad_token. }
    exists e, l'. split; [done|]. intros Hpre H1. by rewrite Hpre, H1 in Hfirst.
Qed.

Lemma init_non_numeric_value_witness :
  ∃ e l', __init__ float_literal
            (Some ([("left", "xratio=0.5")] ++
                   ("middle", "yratio=2.0,xratio=notanumber,xoffset=0.1") ::
                   [("right", "xratio=0.5")])) demo_providers []
          = (Raise e, l') ∧
          (forallb (entry_ok float_literal) [("left", "xratio=0.5")] = true →
           forallb (token_ok float_literal) ["yratio=2.0"] = true →
           e = ValueError (NotAFloat "notanumber")).
Proof.
  apply (init_non_numeric_value float_literal [("left", "xratio=0.5")] "middle"
           "yratio=2.0,xratio=notanumber,xoffset=0.1" [("right", "xratio=0.5")]
           ["yratio=2.0"] "xratio=notanumber" ["xoffset=0.1"] "xratio" "notanumber");
    reflexivity.
Defined.

(** C5, as stated, fails: the entry with [xratio=notanumber] does not
    keep its parsed fields, the other entries are not processed, and an
    exception does abort the construction of the table. *)
Lemma init_notanumber_raises :
  __init__ float_literal
    (Some [("left", "xratio=0.5");
           ("middle", "yratio=2.0,xratio=notanumber,xoffset=0.1");
           ("right", "xratio=0.5")]) demo_providers []
  = (Raise (ValueError (NotAFloat "notanumber")), []).
Proof. vm_compute. reflexivity. Qed.

(** C6 (the code at the failing input).  The token [foo=bar] is reported
    and then not skipped: line 78 runs [float('bar')], and the
    [ValueError] ends [__init__].  With a value [float] accepts, the
    unknown name is stored in the entry. *)
Theorem init_unknown_key_not_skipped :
  __init__ float_literal (Some [("left", "xratio=0.5,foo=bar,yratio=2.0")]) demo_providers []
  = (Raise (ValueError (NotAFloat "bar")), ["Calibration: invalid key provided: foo"]) ∧
  parse_param float_literal default_params "foo=2.0" []
  = (Ok (<["foo" := 2%float]> default_params), ["Calibration: invalid key provided: foo"]).
Proof. split; vm_compute; reflexivity. Qed.

(** C7.  The pass of the loop on a pair whose type is "end" is the
    identity on the store, for every stage, table and store: nothing is
    looked up, read or written.  An object that occurs in the batch in
    "end" pairs only comes out of [process] as it went in, however the
    call ends. *)
Theorem process_skips_end :
  (∀ self fr r σ, process_event self fr ("end", r) σ = (Ok tt, σ)) ∧
  (∀ self events σ r,
     (∀ ty, (ty, r) ∈ events → ty = "end") →
     (process self events σ).2 !! r = σ !! r).
Proof.
  split.
  - apply process_event_end.
  - intros self events σ r Hend. apply process_untouched.
    intros ty Hin. left. by apply Hend.
Qed.

Lemma process_skips_end_witness :
  (process demo_stage [("update", 1%nat); ("end", 0%nat); ("end", 0%nat)] demo_store).2 !! 0%nat
  = Some demo_event.
Proof.
  rewrite (proj2 process_skips_end demo_stage _ demo_store 0%nat); [reflexivity|].
  intros ty Hin. apply list_elem_of_In in Hin. simpl in Hin.
  destruct Hin as [H|[H|[H|[]]]]; inversion H; reflexivity.
Defined.

(** C8.  On a well-formed table [process] returns the batch it was given:
    the same pairs in the same order.  However the call ends, the store
    holds the same objects afterwards, none added and none removed, each
    with its device, its class and every key of [ud] other than the frame
    mark as before: only positions and marks change. *)
Theorem process_preserves_batch :
  (∀ self events σ,
     wf_table (devices self) →
     ∃ self' σ', process self events σ = (Ok events, self', σ')) ∧
  (∀ self events σ,
     dom (process self events σ).2 = dom σ ∧
     same_objects σ (process self events σ).2).
Proof.
  split.
  - apply process_returns.
  - intros self events σ. split; [apply same_objects_dom|]; apply process_same_objects.
Qed.

Lemma process_preserves_batch_witness :
  (∃ self' σ', process demo_stage demo_batch demo_store = (Ok demo_batch, self', σ')) ∧
  (∃ self' σ', process demo_stage [] demo_store = (Ok [], self', σ')).
Proof.
  split; apply (proj1 process_preserves_batch); exact demo_wf.
Defined.

(** C9.  A token that is not empty after [strip] and holds no "=" makes
    [__init__] raise: no table is built, whatever the other entries are.
    When no token before it raises, the exception is the [ValueError] of
    the unpacking of a one-element list into [key, value]. *)
Theorem init_token_without_equals (py_float : string → option float)
    pre dk s post toks1 t toks2 pm l :
  PyStr.split "," s = toks1 ++ t :: toks2 →
  PyStr.is_empty (PyStr.strip t) = false →
  PyStr.contains "=" (PyStr.strip t) = false →
  ∃ e l', __init__ py_float (Some (pre ++ (dk, s) :: post)) pm l = (Raise e, l') ∧
          (forallb (entry_ok py_float) pre = true →
           forallb (token_ok py_float) toks1 = true →
           e = ValueError NotEnoughValues).
Proof.
  intros Hs Hne Hc.
  pose proof (token_ok_no_equals py_float t Hne Hc) as Hbad.
  destruct (forallb (entry_ok py_float) pre && forallb (token_ok py_float) toks1) eqn:Hfirst.
  - apply andb_true_iff in Hfirst as [Hpre H1].
    destruct (init_raises_at py_float pre dk s post toks1 t toks2
                (ValueError NotEnoughValues) pm l Hpre Hs H1) as (l' & E).
    { intros ps l0. eexists. by apply parse_param_no_equals. }
    by exists (ValueError NotEnoughValues), l'.
  - destruct (init_raises py_float (pre ++ (dk, s) :: post) pm l) as (e & l' & E).
    { apply entries_ok_bad_entry. by eapply entry_ok_bad_token. }
    exists e, l'. split; [done|]. intros Hpre H1. by rewrite Hpre, H1 in Hfirst.
Qed.

Lemma init_token_without_equals_witness :
  ∃ e l', __init__ float_literal
            (Some ([("left", "xratio=0.5")] ++ ("middle", "yratio=2.0, xratio ") ::
                   [("right", "xratio=0.5")])) demo_providers []
          = (Raise e, l') ∧
          (forallb (entry_ok float_literal) [("left", "xratio=0.5")] = true →
           forallb (token_ok float_literal) ["yratio=2.0"] = true →
           e = ValueError NotEnoughValues).
Proof.
  apply (init_token_without_equals float_literal [("left", "xratio=0.5")] "middle"
           "yratio=2.0, xratio " [("right", "xratio=0.5")]
           ["yratio=2.0"] " xratio " []);
    reflexivity.
Defined.

(** C10.  A token [name=value] whose name is none of the four fields and
    whose value [float] accepts is reported and stored in the entry under
    that name.  The transform does not see it: cutting an entry down to
    the four fields forgets it, and [process] on the stage whose entries
    are cut down so gives the same result and the same store. *)
Theorem unknown_field_is_stored_and_unused (py_float : string → option float) :
  (∀ ps t l key value v,
     PyStr.is_empty (PyStr.strip t) = false →
     PyStr.split1 "=" (PyStr.strip t) = [key; value] →
     key ∉ known_keys →
     py_float value = Some v →
     parse_param py_float ps t l
       = (Ok (<[key := v]> ps), l ++ ["Calibration: invalid key provided: " +:+ key]) ∧
     restrict (<[key := v]> ps) = restrict ps) ∧
  (∀ self events σ,
     process (canonical self) events σ =
     (let '(res, self', σ') := process self events σ in (res, canonical self', σ'))).
Proof.
  split.
  - intros ps t l key value v Hne Hkv Hk Hf. split.
    + rewrite (parse_param_stores py_float ps t l key value v) by done.
      unfold invalid_key. by rewrite bool_decide_eq_false_2.
    + unfold restrict. apply map_eq. intros f.
      destruct (decide (f ∈ known_keys)) as [Hin|Hout].
      * rewrite !(restrict_lookup _ f Hin : filter _ _ !! f = _).
        rewrite lookup_insert_ne; [done|]. by intros ->.
      * etrans; [|symmetry]; apply map_lookup_filter_None; right; by intros.
  - apply process_canonical.
Qed.

Lemma unknown_field_is_stored_and_unused_witness :
  (parse_param float_literal default_params "foo=2.0" []
     = (Ok (<["foo" := 2%float]> default_params),
        [] ++ ["Calibration: invalid key provided: " +:+ "foo"]) ∧
   restrict (<["foo" := 2%float]> default_params) = restrict default_params) ∧
  process (canonical (Stage (<["left" := <["foo" := 2%float]> demo_left]> ∅) 0 demo_providers))
          demo_batch demo_store
  = (let '(res, self', σ') :=
       process (Stage (<["left" := <["foo" := 2%float]> demo_left]> ∅) 0 demo_providers)
               demo_batch demo_store in
     (res, canonical self', σ')).
Proof.
  split.
  - apply (proj1 (unknown_field_is_stored_and_unused float_literal)
             default_params "foo=2.0" [] "foo" "2.0" 2%float); try reflexivity.
    intros H. apply list_elem_of_In in H. simpl in H.
    destruct H as [H|[H|[H|[H|[]]]]]; discriminate H.
  - apply (proj2 (unknown_field_is_stored_and_unused float_literal)).
Defined.

(** * Further properties *)

(** ** [_get_provider_map] *)

Lemma collect_events_inl p names events :
  Forall (λ m, ∃ attr, members p !! m = Some (ClassObj attr)) names →
  collect_events p names events =
  inl (events ++ omap (λ m, match members p !! m with
                            | Some (ClassObj attr) =>
                                if issubclass attr "MotionEvent" then Some (cname attr) else None
                            | _ => None
                            end) names).
Proof.
  intros H. revert events. induction H as [|m names [attr Hm] _ IH]; intros events; simpl.
  - by rewrite app_nil_r.
  - rewrite Hm, IH. destruct (issubclass attr "MotionEvent"); [|done].
    by rewrite <- app_assoc.
Qed.

Lemma collect_events_returns p names events evs :
  collect_events p names events = inl evs →
  Forall (λ m, ∃ attr, members p !! m = Some (ClassObj attr)) names.
Proof.
  revert events. induction names as [|m names IH]; intros events; simpl; [by constructor|].
  destruct (members p !! m) as [[attr|]|] eqn:Hm; [|done..].
  intros H. constructor; [by exists attr | by eapply IH].
Qed.

Lemma collect_events_module p :
  exports_classes p → collect_events p (__all__ p) [] = inl (motion_events p).
Proof. intros H. by rewrite collect_events_inl. Qed.

Lemma dict_set_fresh {V} (d : list (string * V)) k v :
  k ∉ d.*1 → dict_set d k v = d ++ [(k, v)].
Proof.
  induction d as [|[k' v'] d IH]; simpl; [done|].
  intros Hk. apply not_elem_of_cons in Hk as [Hne Hk].
  destruct (String.eqb_spec k' k) as [->|_]; [done|]. by rewrite IH.
Qed.

Lemma provider_entry_key ns k entry : provider_entry ns k = Some entry → entry.1 = k.
Proof.
  unfold provider_entry. destruct (ns !! k) as [p|]; [|done].
  by destruct (motion_events p); intros [= <-].
Qed.

Lemma provider_entries_keys ns names k :
  k ∈ (omap (provider_entry ns) names).*1 → k ∈ names.
Proof.
  induction names as [|n names IH]; simpl; [by intros ?%elem_of_nil|].
  destruct (provider_entry ns n) as [entry|] eqn:E; simpl.
  - intros [->|H]%elem_of_cons.
    + rewrite (provider_entry_key _ _ _ E). apply list_elem_of_here.
    + apply list_elem_of_further. by apply IH.
  - intros H. apply list_elem_of_further. by apply IH.
Qed.

Lemma fill_provider_map_inl ns names pm :
  NoDup names →
  (∀ k, k ∈ names → k ∉ pm.*1) →
  Forall (λ k, ∃ p, ns !! k = Some p ∧ exports_classes p) names →
  fill_provider_map ns names pm = inl (pm ++ omap (provider_entry ns) names).
Proof.
  intros Hnd. revert pm. induction Hnd as [|k names Hk Hnd IH]; intros pm Hfresh Hok; simpl.
  - by rewrite app_nil_r.
  - apply Forall_cons in Hok as [(p & Hp & Hall) Hok].
    unfold provider_entry at 1. rewrite Hp, collect_events_module by done.
    destruct (motion_events p) as [|ec evs] eqn:Hev.
    + apply IH; [|done]. intros k' Hk'. apply Hfresh. by apply list_elem_of_further.
    + rewrite dict_set_fresh by (apply Hfresh, list_elem_of_here).
      rewrite IH; [by rewrite <- app_assoc| |done].
      intros k' Hk'. rewrite fmap_app. simpl. intros [H|H]%elem_of_app.
      * revert H. apply Hfresh. by apply list_elem_of_further.
      * apply list_elem_of_singleton in H as ->. done.
Qed.

Lemma fill_provider_map_returns ns names pm pm' :
  fill_provider_map ns names pm = inl pm' →
  Forall (λ k, ∃ p, ns !! k = Some p ∧ exports_classes p) names.
Proof.
  revert pm. induction names as [|k names IH]; intros pm; simpl; [by constructor|].
  destruct (ns !! k) as [p|] eqn:Hp; [|done].
  destruct (collect_events p (__all__ p) []) as [evs|err] eqn:Hc; [|done].
  intros H. constructor.
  - exists p. split; [done|]. by eapply collect_events_returns.
  - destruct evs; by eapply IH.
Qed.

Lemma find_is_Some {A} (f : A → bool) l x :
  x ∈ l → f x = true → is_Some (List.find f l).
Proof.
  induction l as [|y l IH]; [by intros ?%elem_of_nil|].
  intros [->|Hin]%elem_of_cons Hx; simpl.
  - rewrite Hx. eauto.
  - destruct (f y); [eauto | by apply IH].
Qed.

Lemma provider_entry_elem ns (names : list string) k entry :
  k ∈ names → provider_entry ns k = Some entry →
  entry ∈ omap (provider_entry ns) names.
Proof.
  intros Hk He. apply list_elem_of_omap. by exists k.
Qed.

(** X1.  When the registered provider names are distinct, every one of
    them has a module and every name a module exports is a class of it,
    [_get_provider_map] returns, in the order of the registered names,
    one entry for each provider whose module exports a motion-event
    class, with the names of those classes in the order of [__all__];
    a provider that exports none has no entry. *)
Theorem get_provider_map_entries factory_list ns :
  NoDup factory_list →
  Forall (λ k, ∃ p, ns !! k = Some p ∧ exports_classes p) factory_list →
  _get_provider_map factory_list ns = inl (omap (provider_entry ns) factory_list) ∧
  Forall (λ entry, entry.2 ≠ [] ∧ entry.1 ∈ factory_list)
         (omap (provider_entry ns) factory_list).
Proof.
  intros Hnd Hok. split.
  - unfold _get_provider_map. rewrite fill_provider_map_inl; try done.
    intros k _ H. simpl in H. by apply elem_of_nil in H.
  - apply Forall_forall. intros entry (k & Hk & He)%list_elem_of_omap.
    pose proof (provider_entry_key _ _ _ He) as Hkey. rewrite Hkey. split; [|done].
    unfold provider_entry in He. destruct (ns !! k) as [p|]; [|done].
    destruct (motion_events p) eqn:E; [done|]. by injection He as <-.
Qed.

Lemma get_provider_map_entries_witness :
  _get_provider_map ["mouse"; "tuio"; "mtdev"] demo_registry
    = inl (omap (provider_entry demo_registry) ["mouse"; "tuio"; "mtdev"]) ∧
  Forall (λ entry, entry.2 ≠ [] ∧ entry.1 ∈ ["mouse"; "tuio"; "mtdev"])
         (omap (provider_entry demo_registry) ["mouse"; "tuio"; "mtdev"]).
Proof.
  apply (get_provider_map_entries ["mouse"; "tuio"; "mtdev"] demo_registry).
  - apply (bool_decide_unpack _). vm_compute. reflexivity.
  - repeat constructor; eexists; (split; [vm_compute; reflexivity|]);
      repeat constructor; eexists; vm_compute; reflexivity.
Defined.


Lemma resolve_first_match self e :
  (∀ d, device e = Some d → devices self !! d = None) →
  resolve self e = first_match (devices self) e (provider_map self).
Proof.
  intros Hout. unfold resolve, _get_provider_key.
  rewrite scan_providers_first_match.
  destruct (device e) as [d|]; [|done].
  unfold has_key. by rewrite (Hout d).
Qed.

Lemma existsb_elem {A} (f : A → bool) (l : list A) x :
  x ∈ l → f x = true → existsb f l = true.
Proof. intros Hin Hx. apply existsb_exists. exists x. by rewrite <- list_elem_of_In. Qed.

Lemma provider_matches_iff devs e k cls :
  provider_matches devs e (k, cls) = true ↔
  (∃ ec, ec ∈ cls ∧ isinstance e ec = true) ∧ is_Some (devs !! provider_key k).
Proof.
  unfold provider_matches. simpl. rewrite andb_true_iff, has_key_true, existsb_exists.
  split; intros [(ec & Hec & Hi) Hk]; (split; [|done]); exists ec;
    (split; [|done]); by apply list_elem_of_In.
Qed.

(** The first element of [omap g l] that satisfies [f] comes from an
    element of [l] before which nothing is mapped to an element that
    satisfies [f]. *)
Lemma find_omap_first {A B} (g : A → option B) (f : B → bool) (l : list A) y :
  List.find f (omap g l) = Some y →
  ∃ pre x post, l = pre ++ x :: post ∧ g x = Some y ∧ f y = true ∧
                ∀ x0 y0, x0 ∈ pre → g x0 = Some y0 → f y0 = false.
Proof.
  induction l as [|a l IH]; [done|]. cbn [omap list_omap].
  destruct (g a) as [b|] eqn:Hg.
  - cbn [List.find]. destruct (f b) eqn:Hf.
    + intros [= <-]. exists [], a, l. repeat split; try done.
      intros x0 y0 H. by apply elem_of_nil in H.
    + intros (pre & x & post & -> & Hx & Hy & Hpre)%IH.
      exists (a :: pre), x, post. repeat split; try done.
      intros x0 y0 [->|H]%elem_of_cons Hg0; [congruence | by eapply Hpre].
  - intros (pre & x & post & -> & Hx & Hy & Hpre)%IH.
    exists (a :: pre), x, post. repeat split; try done.
    intros x0 y0 [->|H]%elem_of_cons Hg0; [congruence | by eapply Hpre].
Qed.

(** X3.  With the provider map that [_get_provider_map] builds, an event
    that is an instance of a motion-event class exported by the module of
    a registered provider whose parenthesized key is in the table, and
    whose device name is no key of the table, resolves to the
    parenthesized key of the first registered provider that matches: the
    provider [k'] splits the registered names into those before it and
    those after it, the event is an instance of a motion-event class its
    module exports, its parenthesized key is in the table, and no
    provider registered before it has both. *)
Theorem registered_class_resolves factory_list ns pm devs fr e k p ec :
  NoDup factory_list →
  _get_provider_map factory_list ns = inl pm →
  k ∈ factory_list → ns !! k = Some p →
  ec ∈ motion_events p → isinstance e ec = true →
  is_Some (devs !! provider_key k) →
  (∀ d, device e = Some d → devs !! d = None) →
  ∃ pre k' post p' ec',
    resolve (Stage devs fr pm) e = Some (provider_key k') ∧
    factory_list = pre ++ k' :: post ∧
    ns !! k' = Some p' ∧
    ec' ∈ motion_events p' ∧ isinstance e ec' = true ∧
    is_Some (devs !! provider_key k') ∧
    ∀ k0 p0, k0 ∈ pre → ns !! k0 = Some p0 →
      ¬ ((∃ ec0, ec0 ∈ motion_events p0 ∧ isinstance e ec0 = true) ∧
         is_Some (devs !! provider_key k0)).
Proof.
  intros Hnd Hpm Hk Hp Hec Hinst Hkey Hdev.
  pose proof (fill_provider_map_returns _ _ _ _ Hpm) as Hok.
  unfold _get_provider_map in Hpm. rewrite fill_provider_map_inl in Hpm; try done.
  2:{ intros k0 _ H. simpl in H. by apply elem_of_nil in H. }
  injection Hpm as <-.
  assert (∀ k1 p1 ec1, ns !! k1 = Some p1 → ec1 ∈ motion_events p1 →
            provider_entry ns k1 = Some (k1, motion_events p1)) as Hentry.
  { intros k1 p1 ec1 Hp1 Hec1. unfold provider_entry. rewrite Hp1.
    destruct (motion_events p1); [|done]. by apply elem_of_nil in Hec1. }
  destruct (find_is_Some (provider_matches devs e) _ _
              (provider_entry_elem ns factory_list k _ Hk (Hentry k p ec Hp Hec)))
    as [entry Hfind].
  { apply provider_matches_iff. split; [by exists ec | done]. }
  pose proof Hfind as (pre & k' & post & Hsplit & Hk' & Hm & Hpre)%find_omap_first.
  pose proof (provider_entry_key _ _ _ Hk') as Hkey'.
  unfold provider_entry in Hk'. destruct (ns !! k') as [p'|] eqn:Hp'; [|done].
  assert (entry = (k', motion_events p')) as ->.
  { destruct (motion_events p'); [done|]. by injection Hk' as <-. }
  apply provider_matches_iff in Hm as [(ec' & Hec' & Hi') Hkey''].
  exists pre, k', post, p', ec'. repeat split; try done.
  - rewrite resolve_first_match by done. simpl. unfold first_match. by rewrite Hfind.
  - intros k0 p0 Hk0 Hp0 [(ec0 & Hec0 & Hi0) Hkey0].
    pose proof (Hpre k0 _ Hk0 (Hentry k0 p0 ec0 Hp0 Hec0)) as Hno.
    assert (provider_matches devs e (k0, motion_events p0) = true) as Hyes.
    { apply provider_matches_iff. split; [by exists ec0 | done]. }
    congruence.
Qed.

Lemma registered_class_resolves_witness :
  ∃ pre k' post p' ec',
    resolve (Stage (devices demo_stage) 0 demo_providers) demo_right
      = Some (provider_key k') ∧
    ["mouse"; "tuio"; "mtdev"] = pre ++ k' :: post ∧
    demo_registry !! k' = Some p' ∧
    ec' ∈ motion_events p' ∧ isinstance demo_right ec' = true ∧
    is_Some (devices demo_stage !! provider_key k') ∧
    ∀ k0 p0, k0 ∈ pre → demo_registry !! k0 = Some p0 →
      ¬ ((∃ ec0, ec0 ∈ motion_events p0 ∧ isinstance demo_right ec0 = true) ∧
         is_Some (devices demo_stage !! provider_key k0)).
Proof.
  apply (registered_class_resolves ["mouse"; "tuio"; "mtdev"] demo_registry
           demo_providers (devices demo_stage) 0 demo_right "mtdev"
           (PyModule ["MTDMotionEvent"]
              (<["MTDMotionEvent" := ClassObj (PyClass "MTDMotionEvent" ["MotionEvent"])]> ∅))
           "MTDMotionEvent").
  - apply (bool_decide_unpack _). vm_compute. reflexivity.
  - vm_compute. reflexivity.
  - apply (bool_decide_unpack _). vm_compute. reflexivity.
  - vm_compute. reflexivity.
  - apply list_elem_of_here.
  - vm_compute. reflexivity.
  - eexists. vm_compute. reflexivity.
  - intros d [= <-]. vm_compute. reflexivity.
Defined.

(** ** [__init__]: entries as lists of fields *)

Lemma lstrip_head s :
  match PyStr.lstrip s with
  | EmptyString => True
  | String c _ => PyStr.is_space c = false
  end.
Proof.
  induction s as [|c s IH]; simpl; [done|].
  destruct (PyStr.is_space c) eqn:E; [done|]. simpl. done.
Qed.

Lemma rstrip_idem s : PyStr.rstrip (PyStr.rstrip s) = PyStr.rstrip s.
Proof.
  induction s as [|c s IH]; simpl; [done|].
  destruct (PyStr.is_space c && PyStr.is_empty (PyStr.rstrip s)) eqn:E; [done|].
  simpl. by rewrite IH, E.
Qed.

Lemma lstrip_rstrip_lstrip s :
  PyStr.lstrip (PyStr.rstrip (PyStr.lstrip s)) = PyStr.rstrip (PyStr.lstrip s).
Proof.
  pose proof (lstrip_head s) as H. destruct (PyStr.lstrip s) as [|c u]; [done|].
  simpl. rewrite H. simpl. by rewrite H.
Qed.

Lemma strip_idem s : PyStr.strip (PyStr.strip s) = PyStr.strip s.
Proof. unfold PyStr.strip. by rewrite lstrip_rstrip_lstrip, rstrip_idem. Qed.

Lemma split1_first_sep sep key value :
  PyStr.contains sep key = false →
  PyStr.split1 sep (key +:+ String sep value) = [key; value].
Proof.
  induction key as [|c key IH]; simpl.
  - by rewrite Ascii.eqb_refl.
  - destruct (Ascii.eqb c sep); simpl; [done|]. intros H. by rewrite IH.
Qed.

Lemma fold_insert_list_to_map {A} (kvs : list (string * A)) (m : gmap string A) :
  foldl (λ acc kv, <[kv.1 := kv.2]> acc) m kvs = list_to_map (reverse kvs) ∪ m.
Proof.
  revert m. induction kvs as [|[k v] kvs IH]; intros m; simpl.
  - by rewrite (left_id_L ∅ (∪)).
  - rewrite IH, reverse_cons, list_to_map_app. simpl.
    rewrite insert_empty, <- (assoc_L (∪)). by rewrite <- insert_union_singleton_l.
Qed.

Section ParseFacts.

Variable py_float : string → option float.

Lemma parse_param_field ps t l k v :
  field_of py_float t = Some (k, v) →
  parse_param py_float ps t l = (Ok (<[k := v]> ps), invalid_key k l).
Proof.
  unfold field_of. destruct (PyStr.is_empty (PyStr.strip t)) eqn:He; [done|].
  destruct (PyStr.split1 "=" (PyStr.strip t)) as [|key [|value [|]]] eqn:Hs; try done.
  destruct (py_float value) as [v'|] eqn:Hf; [|done]. intros [= <- <-].
  by apply (parse_param_stores _ _ _ _ _ value).
Qed.

Lemma token_ok_field t :
  token_ok py_float t = true →
  (PyStr.is_empty (PyStr.strip t) = true ∧ field_of py_float t = None) ∨
  (∃ k v, field_of py_float t = Some (k, v)).
Proof.
  unfold token_ok, field_of. destruct (PyStr.is_empty (PyStr.strip t)); simpl; [by left|].
  destruct (PyStr.split1 "=" (PyStr.strip t)) as [|key [|value [|]]]; try done.
  destruct (py_float value) as [v|]; [|done]. intros _. right. by exists key, v.
Qed.

(** The entry the inner loop builds: the fields of the tokens, stored
    from left to right. *)
Lemma parse_params_fields toks ps l :
  forallb (token_ok py_float) toks = true →
  (foldM (parse_param py_float) toks ps l).1 =
  Ok (foldl (λ acc kv, <[kv.1 := kv.2]> acc) ps (omap (field_of py_float) toks)).
Proof.
  revert ps l. induction toks as [|t toks IH]; intros ps l; [done|].
  intros [Ht Hts]%andb_true_iff. rewrite foldM_cons. simpl.
  destruct (token_ok_field t Ht) as [[He ->]|(k & v & Hf)].
  - rewrite parse_param_empty by done. by apply IH.
  - rewrite Hf, (parse_param_field _ _ _ k v) by done. simpl. by apply IH.
Qed.

Lemma parse_params_result toks ps l ps' l' :
  foldM (parse_param py_float) toks ps l = (Ok ps', l') →
  forallb (token_ok py_float) toks = true ∧
  ps' = foldl (λ acc kv, <[kv.1 := kv.2]> acc) ps (omap (field_of py_float) toks).
Proof.
  intros H. destruct (forallb (token_ok py_float) toks) eqn:Hok.
  - split; [done|]. pose proof (parse_params_fields toks ps l Hok) as Hf.
    rewrite H in Hf. simpl in Hf. by injection Hf.
  - destruct (parse_params_bad py_float toks ps l Hok) as (e & l1 & E). by rewrite E in H.
Qed.

Lemma parse_entry_result devs k s l devs' l' :
  parse_entry py_float devs (k, s) l = (Ok devs', l') →
  ∃ ps, entry_params py_float s = Ok ps ∧ devs' = <[k := ps]> devs.
Proof.
  unfold parse_entry, bind.
  destruct (foldM _ (PyStr.split "," s) default_params l) as [[ps|e] l1] eqn:E; [|done].
  intros [= <- _]. exists ps. split; [|done].
  apply parse_params_result in E as [Hok ->].
  unfold entry_params. by rewrite parse_params_fields.
Qed.

Lemma entries_result_lookup items devs l devs' l' k :
  foldM (parse_entry py_float) items devs l = (Ok devs', l') →
  k ∉ items.*1 → devs' !! k = devs !! k.
Proof.
  revert devs l. induction items as [|[k0 s] items IH]; intros devs l.
  - by intros [= <- _].
  - rewrite foldM_cons.
    destruct (parse_entry py_float devs (k0, s) l) as [[devs1|e] l1] eqn:E; [|done].
    apply parse_entry_result in E as (ps & _ & ->).
    intros H [Hne Hk]%not_elem_of_cons. simpl in Hne.
    rewrite (IH _ _ H Hk). by rewrite lookup_insert_ne.
Qed.

Lemma entries_result_keys items devs l devs' l' k :
  foldM (parse_entry py_float) items devs l = (Ok devs', l') →
  is_Some (devs' !! k) ↔ k ∈ items.*1 ∨ is_Some (devs !! k).
Proof.
  revert devs l. induction items as [|[k0 s] items IH]; intros devs l.
  - intros [= <- _]. simpl. split; [by right|]. intros [H|H]; [|done]. by apply elem_of_nil in H.
  - rewrite foldM_cons.
    destruct (parse_entry py_float devs (k0, s) l) as [[devs1|e] l1] eqn:E; [|done].
    apply parse_entry_result in E as (ps & _ & ->).
    intros H. rewrite (IH _ _ H). simpl. rewrite elem_of_cons.
    destruct (decide (k = k0)) as [->|Hne].
    + rewrite lookup_insert_eq. split; [|by eauto]. intros _. by left; left.
    + rewrite lookup_insert_ne by done. split.
      * intros [?|?]; [left; by right | by right].
      * intros [[?|?]|?]; [done | by left | by right].
Qed.

End ParseFacts.

Lemma fold_insert_lookup_notin {A} (kvs : list (string * A)) (m : gmap string A) k :
  k ∉ kvs.*1 → foldl (λ acc kv, <[kv.1 := kv.2]> acc) m kvs !! k = m !! k.
Proof.
  revert m. induction kvs as [|[k0 v0] kvs IH]; intros m; simpl; [done|].
  intros [Hne Hk]%not_elem_of_cons. rewrite IH by done. by rewrite lookup_insert_ne.
Qed.

Lemma fold_insert_lookup_last {A} (kvs1 kvs2 : list (string * A)) (m : gmap string A) k v :
  k ∉ kvs2.*1 →
  foldl (λ acc kv, <[kv.1 := kv.2]> acc) m (kvs1 ++ (k, v) :: kvs2) !! k = Some v.
Proof.
  intros Hk. rewrite foldl_app. simpl.
  rewrite fold_insert_lookup_notin by done. apply lookup_insert_eq.
Qed.

Lemma forallb_Permutation {A} (f : A → bool) (l l' : list A) :
  l ≡ₚ l' → forallb f l = forallb f l'.
Proof.
  induction 1 as [|x l l' _ IH|x y l|l1 l2 l3 _ IH1 _ IH2]; simpl.
  - done.
  - by rewrite IH.
  - by rewrite !andb_assoc, (andb_comm (f y)).
  - by rewrite IH1.
Qed.

(** Lines 65-79, once the provider map is there, return exactly when
    every token of every entry is [token_ok]. *)
Lemma init_returns_iff (py_float : string → option float) items pm l :
  (∃ self l', __init__ py_float (Some items) pm l = (Ok self, l')) ↔
  forallb (entry_ok py_float) items = true.
Proof.
  split.
  - intros (self & l' & H). destruct (forallb (entry_ok py_float) items) eqn:E; [done|].
    destruct (init_raises py_float items pm l E) as (e & l1 & H'). by rewrite H' in H.
  - apply init_returns.
Qed.

Lemma fill_provider_map_total ns names pm :
  Forall (λ k, ∃ p, ns !! k = Some p ∧ exports_classes p) names →
  ∃ pm', fill_provider_map ns names pm = inl pm'.
Proof.
  revert pm. induction names as [|k names IH]; intros pm Hok; simpl; [by eexists|].
  apply Forall_cons in Hok as [(p & Hp & Hall) Hok].
  rewrite Hp, collect_events_module by done.
  destruct (motion_events p); by apply IH.
Qed.

(** X4.  The constructor returns a stage exactly when the provider map
    can be built (every registered provider name has a module, and every
    name each of these modules exports is a class of it) and, if the
    configuration has the section, every token of every entry is either
    empty after [strip] or of the form [name=value] with a value that
    [float] accepts; otherwise it raises.  When the provider map cannot be
    built the exception is the one of [_get_provider_map], whatever the
    configuration holds, and nothing is logged. *)
Theorem constructor_returns_iff (py_float : string → option float)
    factory_list ns config l :
  ((∃ self l',
      InputPostprocCalibration py_float factory_list ns config l = (inl self, l')) ↔
   Forall (λ k, ∃ p, ns !! k = Some p ∧ exports_classes p) factory_list ∧
   match config with
   | None => True
   | Some items => forallb (entry_ok py_float) items = true
   end) ∧
  (∀ err, _get_provider_map factory_list ns = inr err →
     InputPostprocCalibration py_float factory_list ns config l
       = (inr (RegistryError err), l)).
Proof.
  split; [|by intros err H; unfold InputPostprocCalibration; rewrite H].
  unfold InputPostprocCalibration. split.
  - intros (self & l' & H).
    destruct (_get_provider_map factory_list ns) as [pm|err] eqn:Hpm; [|done].
    split; [by eapply fill_provider_map_returns|].
    destruct config as [items|]; [|done].
    apply (init_returns_iff py_float items pm l).
    destruct (__init__ py_float (Some items) pm l) as [[self0|e] l0]; [by eauto|done].
  - intros [Hreg Hcfg].
    destruct (fill_provider_map_total ns factory_list [] Hreg) as [pm Hpm].
    unfold _get_provider_map. rewrite Hpm.
    destruct config as [items|].
    + destruct (init_returns py_float items pm l Hcfg) as (self & l' & ->). by eauto.
    + simpl. by eauto.
Qed.

Lemma constructor_returns_iff_witness :
  (∃ self l',
     InputPostprocCalibration float_literal ["mouse"; "tuio"; "mtdev"] demo_registry
       (Some demo_config) [] = (inl self, l')) ∧
  InputPostprocCalibration float_literal ["mouse"; "android"] demo_registry
    (Some demo_config) [] = (inr (RegistryError (AttributeError "android")), []).
Proof.
  split.
  - apply (proj1 (constructor_returns_iff float_literal ["mouse"; "tuio"; "mtdev"]
                    demo_registry (Some demo_config) [])).
    split; [|reflexivity].
    repeat constructor; eexists; (split; [vm_compute; reflexivity|]);
      repeat constructor; eexists; vm_compute; reflexivity.
  - apply (proj2 (constructor_returns_iff float_literal ["mouse"; "android"]
                    demo_registry (Some demo_config) [])).
    vm_compute. reflexivity.
Defined.

(** X5.  In the table [__init__] returns, the keys are exactly the device
    keys of the configuration items, and the entry of a key is the one
    its last item gives, parsed on its own from the defaults: an earlier
    item with the same key, and the other items, leave no trace in it. *)
Theorem init_table_entries (py_float : string → option float) items pm l self l' :
  __init__ py_float (Some items) pm l = (Ok self, l') →
  (∀ k, is_Some (devices self !! k) ↔ k ∈ items.*1) ∧
  (∀ pre k s post, items = pre ++ (k, s) :: post → k ∉ post.*1 →
     ∃ ps, entry_params py_float s = Ok ps ∧ devices self !! k = Some ps).
Proof.
  unfold __init__, bind.
  destruct (foldM (parse_entry py_float) items ∅ l) as [[devs|e] l1] eqn:E; [|done].
  intros [= <- _]. simpl. split.
  - intros k. rewrite (entries_result_keys py_float _ _ _ _ _ k E).
    rewrite lookup_empty. split; [|by left]. intros [H|[? H]]; done.
  - intros pre k s post -> Hk. rewrite foldM_app in E.
    destruct (foldM (parse_entry py_float) pre ∅ l) as [[devs0|e] l0]; [|done].
    rewrite foldM_cons in E.
    destruct (parse_entry py_float devs0 (k, s) l0) as [[devs1|e] l2] eqn:E1; [|done].
    apply parse_entry_result in E1 as (ps & Hps & ->).
    exists ps. split; [done|].
    rewrite (entries_result_lookup py_float _ _ _ _ _ k E Hk). apply lookup_insert_eq.
Qed.

Lemma init_table_entries_witness :
  (∀ k, is_Some (devices demo_stage !! k) ↔ k ∈ demo_config.*1) ∧
  (∀ pre k s post, demo_config = pre ++ (k, s) :: post → k ∉ post.*1 →
     ∃ ps, entry_params float_literal s = Ok ps ∧ devices demo_stage !! k = Some ps).
Proof.
  apply (init_table_entries float_literal demo_config demo_providers [] demo_stage []).
  vm_compute. reflexivity.
Defined.

(** X6.  The order of the fields of an entry does not matter when their
    names are distinct: two token lists that are permutations of each
    other, on which the loop returns, build the same entry. *)
Theorem entry_field_order (py_float : string → option float) toks toks' ps l l' :
  forallb (token_ok py_float) toks = true →
  toks ≡ₚ toks' →
  NoDup (omap (field_of py_float) toks).*1 →
  (foldM (parse_param py_float) toks ps l).1 = (foldM (parse_param py_float) toks' ps l').1.
Proof.
  intros Hok Hperm Hnd.
  rewrite !parse_params_fields by (by rewrite <- ?(forallb_Permutation _ _ _ Hperm)).
  rewrite !fold_insert_list_to_map. do 2 f_equal.
  apply list_to_map_proper.
  - by rewrite fmap_reverse, reverse_Permutation.
  - by rewrite !reverse_Permutation, Hperm.
Qed.

Lemma entry_field_order_witness :
  (foldM (parse_param float_literal) ["xratio=0.5"; " "; "yoffset=0.1"] default_params []).1
  = (foldM (parse_param float_literal) ["yoffset=0.1"; "xratio=0.5"; " "] default_params []).1.
Proof.
  apply (entry_field_order float_literal).
  - reflexivity.
  - apply (bool_decide_unpack _). vm_compute. reflexivity.
  - apply (bool_decide_unpack _). vm_compute. reflexivity.
Defined.

(** X7.  In the entry a parameter string gives, a name that no token
    stores keeps its default (1 for the ratios, 0 for the offsets,
    nothing for any other name), and a name that tokens store holds the
    value of the last of them. *)
Theorem entry_field_values (py_float : string → option float) s ps :
  entry_params py_float s = Ok ps →
  (∀ f, f ∉ (omap (field_of py_float) (PyStr.split "," s)).*1 →
        ps !! f = default_params !! f) ∧
  (∀ toks1 t toks2 k v,
     PyStr.split "," s = toks1 ++ t :: toks2 →
     field_of py_float t = Some (k, v) →
     k ∉ (omap (field_of py_float) toks2).*1 →
     ps !! k = Some v).
Proof.
  unfold entry_params.
  destruct (foldM _ (PyStr.split "," s) default_params []) as [[ps'|e] l'] eqn:E; [|done].
  intros [= <-]. apply parse_params_result in E as [_ ->]. split.
  - intros f Hf. by apply fold_insert_lookup_notin.
  - intros toks1 t toks2 k v -> Ht Hk. rewrite omap_app. simpl. rewrite Ht.
    by apply fold_insert_lookup_last.
Qed.

Lemma entry_field_values_witness :
  (∀ f, f ∉ (omap (field_of float_literal)
                  (PyStr.split "," "xratio=2.0,xoffset=0.1,xratio=0.5")).*1 →
        (<["xratio" := 0.5%float]> (<["xoffset" := 0.1%float]> default_params)) !! f = default_params !! f) ∧
  (∀ toks1 t toks2 k v,
     PyStr.split "," "xratio=2.0,xoffset=0.1,xratio=0.5" = toks1 ++ t :: toks2 →
     field_of float_literal t = Some (k, v) →
     k ∉ (omap (field_of float_literal) toks2).*1 →
     (<["xratio" := 0.5%float]> (<["xoffset" := 0.1%float]> default_params)) !! k = Some v).
Proof.
  apply (entry_field_values float_literal "xratio=2.0,xoffset=0.1,xratio=0.5" (<["xratio" := 0.5%float]> (<["xoffset" := 0.1%float]> default_params))).
  vm_compute. reflexivity.
Defined.

(** X8.  Tokens that are empty after [strip] (extra commas, blanks) are
    ignored by the inner loop, and white space around a token makes no
    difference. *)
Theorem blank_tokens_ignored (py_float : string → option float) :
  (∀ toks ps l,
     foldM (parse_param py_float) toks ps l =
     foldM (parse_param py_float) (List.filter nonblank toks) ps l) ∧
  (∀ t ps l, parse_param py_float ps t l = parse_param py_float ps (PyStr.strip t) l).
Proof.
  split.
  - intros toks. induction toks as [|t toks IH]; intros ps l; [done|].
    rewrite foldM_cons. cbn [List.filter]. unfold nonblank at 1.
    destruct (PyStr.is_empty (PyStr.strip t)) eqn:He; cbn [negb].
    + rewrite parse_param_empty by done. apply IH.
    + rewrite foldM_cons. destruct (parse_param py_float ps t l) as [[ps1|e] l1]; [apply IH|done].
  - intros t ps l. unfold parse_param. by rewrite strip_idem.
Qed.

(** X9.  The name of a field is the text before the first "=" of the
    token and its value is all the text after it: a token [key=value]
    with no "=" in [key] and no white space around it stores
    [float(value)] under [key], or raises the [ValueError] of
    [float(value)], even when [value] holds further "=". *)
Theorem parse_param_name_value (py_float : string → option float) ps key value l :
  PyStr.contains "=" key = false →
  PyStr.strip (key +:+ String "=" value) = key +:+ String "=" value →
  parse_param py_float ps (key +:+ String "=" value) l =
  match py_float value with
  | Some v => (Ok (<[key := v]> ps), invalid_key key l)
  | None => (Raise (ValueError (NotAFloat value)), invalid_key key l)
  end.
Proof.
  intros Hkey Hstrip.
  assert (PyStr.is_empty (PyStr.strip (key +:+ String "=" value)) = false) as Hne.
  { rewrite Hstrip. by destruct key. }
  assert (PyStr.split1 "=" (PyStr.strip (key +:+ String "=" value)) = [key; value]) as Hs.
  { rewrite Hstrip. by apply split1_first_sep. }
  destruct (py_float value) as [v|] eqn:Hf.
  - by apply (parse_param_stores _ _ _ _ _ value).
  - by apply parse_param_not_float.
Qed.

Lemma parse_param_name_value_witness :
  parse_param float_literal default_params ("xratio" +:+ String "=" "0.5=2.0") [] =
  match float_literal "0.5=2.0" with
  | Some v => (Ok (<["xratio" := v]> default_params), invalid_key "xratio" [])
  | None => (Raise (ValueError (NotAFloat "0.5=2.0")), invalid_key "xratio" [])
  end.
Proof.
  apply (parse_param_name_value float_literal default_params "xratio" "0.5=2.0" []);
    reflexivity.
Defined.

(** ** [process]: frames, batches and keys *)

Lemma run_frames_wf self batches σ :
  wf_table (devices self) →
  ∃ self' σ', run_frames self batches σ = (Ok tt, self', σ') ∧
    devices self' = devices self ∧ provider_map self' = provider_map self ∧
    frame self' = (if decide (devices self = ∅) then frame self
                   else frame self + Z.of_nat (length batches)) ∧
    same_objects σ σ'.
Proof.
  intros Hwf. revert self σ Hwf. induction batches as [|events batches IH]; intros self σ Hwf.
  - exists self, σ. repeat split; [|apply same_objects_refl].
    destruct (decide (devices self = ∅)); simpl; lia.
  - cbn [run_frames]. pose proof (process_same_objects self events σ) as Hsame.
    destruct (decide (devices self = ∅)) as [He|Hne].
    + rewrite process_empty in * by done. simpl in Hsame.
      destruct (IH self σ Hwf) as (self' & σ' & E & Hd & Hp & Hf & Hs).
      rewrite decide_True in Hf by done. by exists self', σ'.
    + destruct (process_wf self events σ Hwf Hne) as (σ1 & E1 & _).
      rewrite E1 in *. simpl in Hsame.
      destruct (IH (set_frame (frame self + 1) self) σ1 Hwf) as (self' & σ' & E & Hd & Hp & Hf & Hs).
      exists self', σ'. rewrite decide_False in Hf by done. simpl in Hf.
      repeat split; try done.
      * rewrite Hf. cbn [length]. lia.
      * by eapply same_objects_trans.
Qed.

(** X10.  On a stage that [__init__] has returned, [process] never
    raises: any sequence of batches is processed to the end, the table
    and the provider map stay as [__init__] left them, the frame counter
    ends on the number of calls (on 0 when the table is empty), and the
    store holds the same objects as before. *)
Theorem init_then_process_never_raises (py_float : string → option float)
    config pm l self l' :
  __init__ py_float config pm l = (Ok self, l') →
  ∀ batches σ,
    ∃ self' σ', run_frames self batches σ = (Ok tt, self', σ') ∧
      devices self' = devices self ∧ provider_map self' = pm ∧
      frame self' = (if decide (devices self = ∅) then 0 else Z.of_nat (length batches)) ∧
      same_objects σ σ'.
Proof.
  intros Hinit batches σ.
  destruct (init_stage _ _ _ _ _ _ Hinit) as (Hf0 & Hpm & Hwf).
  destruct (run_frames_wf self batches σ Hwf) as (self' & σ' & E & Hd & Hp & Hf & Hs).
  exists self', σ'. rewrite Hf0 in Hf. rewrite Hp, Hpm in *.
  repeat split; done.
Qed.

Lemma init_then_process_never_raises_witness :
  ∃ self' σ', run_frames demo_stage [demo_batch; []; demo_batch] demo_store = (Ok tt, self', σ') ∧
    devices self' = devices demo_stage ∧ provider_map self' = demo_providers ∧
    frame self' = (if decide (devices demo_stage = ∅) then 0
                   else Z.of_nat (length [demo_batch; []; demo_batch])) ∧
    same_objects demo_store σ'.
Proof.
  apply (init_then_process_never_raises float_literal (Some demo_config)
           demo_providers [] demo_stage []).
  vm_compute. reflexivity.
Defined.





(** X12.  An object that no pair of the batch names is not touched by
    [process], however the call ends. *)
Theorem process_leaves_others self events σ r :
  r ∉ events.*2 → (process self events σ).2 !! r = σ !! r.
Proof.
  intros Hr. apply process_untouched. intros ty Hin. destruct Hr.
  apply list_elem_of_fmap. by exists (ty, r).
Qed.

Lemma process_leaves_others_witness :
  (process demo_stage demo_batch demo_store).2 !! 1%nat = demo_store !! 1%nat.
Proof.
  apply (process_leaves_others demo_stage demo_batch demo_store 1%nat).
  apply (bool_decide_unpack _). vm_compute. reflexivity.
Defined.

Lemma scan_providers_origin devs e pm k :
  scan_providers devs e pm = Some k →
  ∃ input_type cls ec, (input_type, cls) ∈ pm ∧ k = provider_key input_type ∧
                       ec ∈ cls ∧ isinstance e ec = true.
Proof.
  induction pm as [|[input_type cls] pm IH]; [done|].
  cbn [scan_providers]. rewrite scan_classes_existsb. fold (provider_key input_type).
  destruct (existsb (isinstance e) cls && has_key devs (provider_key input_type)) eqn:E.
  - intros [= <-]. apply andb_true_iff in E as [(ec & Hec & Hi)%existsb_exists _].
    exists input_type, cls, ec. repeat split; try done.
    + apply list_elem_of_here.
    + by apply list_elem_of_In.
  - intros (it & cl & ec & Hin & H)%IH. exists it, cl, ec. split; [|done].
    by apply list_elem_of_further.
Qed.

(** X13.  Whatever key the resolution of lines 114-117 gives is a key of
    the table, so that the lookup of line 126 cannot fail; it is the
    device name of the event, or the parenthesized name of a provider of
    the provider map one of whose classes the event is an instance of. *)
Theorem resolved_key_is_table_key self e dev :
  resolve self e = Some dev →
  is_Some (devices self !! dev) ∧
  (device e = Some dev ∨
   ∃ input_type cls ec, (input_type, cls) ∈ provider_map self ∧
     dev = provider_key input_type ∧ ec ∈ cls ∧ isinstance e ec = true).
Proof.
  intros H. split; [by eapply resolve_in_table|].
  unfold resolve, _get_provider_key in H.
  destruct (device e) as [d|]; [destruct (has_key (devices self) d)|].
  - left. congruence.
  - right. by eapply scan_providers_origin.
  - right. by eapply scan_providers_origin.
Qed.

Lemma resolved_key_is_table_key_witness :
  is_Some (devices demo_stage !! "(mtdev)") ∧
  (device demo_right = Some "(mtdev)" ∨
   ∃ input_type cls ec, (input_type, cls) ∈ provider_map demo_stage ∧
     "(mtdev)" = provider_key input_type ∧ ec ∈ cls ∧ isinstance demo_right ec = true).
Proof.
  apply (resolved_key_is_table_key demo_stage demo_right "(mtdev)").
  vm_compute. reflexivity.
Defined.

Lemma forM__inert self fr events σ r e :
  σ !! r = Some e → calibrate_event self fr e = (Ok tt, e) →
  (forM_ (process_event self fr) events σ).2 !! r = Some e.
Proof.
  intros Hr Hc. revert σ Hr. induction events as [|[ty r'] events IH]; intros σ Hr; [done|].
  rewrite forM__cons.
  assert ((process_event self fr (ty, r') σ).2 !! r = Some e) as H1.
  { destruct (decide (r = r')) as [<-|Hne]; [|by rewrite process_event_other].
    unfold process_event, on_object. destruct (String.eqb ty "end"); [done|].
    rewrite Hr, Hc. simpl. apply lookup_insert_eq. }
  destruct (process_event self fr (ty, r') σ) as [[[]|ex] σ1]; simpl in *; [|done].
  by apply IH.
Qed.

(** X14.  The empty string is no usable key: an event whose key resolves
    to the empty string (its device name is empty and the table has an
    entry under the empty key) is skipped by line 118 and comes out of
    [process] as it went in, whatever the entry holds. *)
Theorem empty_key_is_skipped self e events σ r :
  resolve self e = Some "" →
  σ !! r = Some e →
  (process self events σ).2 !! r = Some e.
Proof.
  intros Hres Hr. unfold process. destruct (decide (devices self = ∅)); [done|].
  pose proof (forM__inert (set_frame (frame self + 1) self) (frame self + 1) events σ r e Hr) as H.
  simpl. destruct (forM_ _ events σ) as [[[]|ex] σ']; simpl in *; apply H;
    by apply (calibrate_event_empty_key _ _ _ "").
Qed.

Lemma empty_key_is_skipped_witness :
  (process (Stage (<["" := demo_left]> ∅) 0 demo_providers) [("update", 5%nat)]
           (<[5%nat := Event (Some "") ["MotionEvent"] 0.4%float 0.3%float ∅]> ∅)).2 !! 5%nat
  = Some (Event (Some "") ["MotionEvent"] 0.4%float 0.3%float ∅).
Proof.
  apply (empty_key_is_skipped (Stage (<["" := demo_left]> ∅) 0 demo_providers)).
  - vm_compute. reflexivity.
  - vm_compute. reflexivity.
Defined.

(** X15.  When the inner loop returns, what it has given to
    [Logger.error] is one message for each token that stores a value
    under a name that is none of the four fields, in the order of the
    tokens, and nothing else: the four fields and the empty tokens are
    never reported. *)
Theorem unknown_names_logged (py_float : string → option float) toks ps l ps' l' :
  foldM (parse_param py_float) toks ps l = (Ok ps', l') →
  l' = l ++ omap (λ t, match field_of py_float t with
                       | Some (k, _) =>
                           if bool_decide (k ∈ known_keys) then None
                           else Some ("Calibration: invalid key provided: " +:+ k)
                       | None => None
                       end) toks.
Proof.
  revert ps l. induction toks as [|t toks IH]; intros ps l.
  - intros [= _ <-]. by rewrite app_nil_r.
  - rewrite foldM_cons. destruct (token_ok py_float t) eqn:Ht.
    + destruct (token_ok_field py_float t Ht) as [[He Hf]|(k & v & Hf)].
      * rewrite parse_param_empty by done. intros H%IH. simpl. by rewrite Hf.
      * rewrite (parse_param_field py_float _ _ _ k v) by done.
        intros H%IH. simpl. rewrite Hf, H. unfold invalid_key.
        destruct (bool_decide (k ∈ known_keys)); [done|]. by rewrite <- app_assoc.
    + by destruct (parse_param_bad py_float ps t l Ht) as (e & l1 & ->).
Qed.

Lemma unknown_names_logged_witness :
  ["Calibration: invalid key provided: foo"] =
  [] ++ omap (λ t, match field_of float_literal t with
                   | Some (k, _) =>
                       if bool_decide (k ∈ known_keys) then None
                       else Some ("Calibration: invalid key provided: " +:+ k)
                   | None => None
                   end) ["xratio=0.5"; ""; " foo=2.0"; "yratio=2.0"].
Proof.
  apply (unknown_names_logged float_literal ["xratio=0.5"; ""; " foo=2.0"; "yratio=2.0"]
           default_params []
           (<["yratio" := 2%float]> (<["foo" := 2%float]> (<["xratio" := 0.5%float]> default_params)))).
  vm_compute. reflexivity.
Defined.
